(** * anonyme.py: a shallow embedding of the IP anonymizer

    The program reads a text file, finds IPv4 / IPv6 shaped substrings with
    one regular expression and rewrites each one through the callback
    [replace_ip] passed to [re.sub]; the result replaces the file.

    Text is a [list ascii]: [\d] and [[0-9a-fA-F]] of the Python pattern are
    the ASCII classes, which is exactly Python's meaning on ASCII text.
    Exceptions are explicit: every operation that can raise returns a
    [result]. *)

From Stdlib Require Import List Ascii String Bool Arith Lia.
Import ListNotations.
Open Scope char_scope.

(** ** Exceptions *)

Inductive exn : Type :=
| LookupError   (* geoip2: AddressNotFoundError, ValueError on malformed input *)
| OSError.      (* file system failures *)

Inductive result (A : Type) : Type :=
| Ok (a : A)
| Err (e : exn).
Arguments Ok {A} a.
Arguments Err {A} e.

Definition bind {A B} (r : result A) (f : A -> result B) : result B :=
  match r with Ok a => f a | Err e => Err e end.

Notation "x <- c ;; k" := (bind c (fun x => k))
  (at level 61, c at next level, right associativity).

(** [try: body except: handler] *)
Definition try_except {A} (body : result A) (handler : exn -> result A) : result A :=
  match body with Ok a => Ok a | Err e => handler e end.

(** ** Characters and Python string helpers *)

(** The text is modelled as ASCII characters. Python's [\d] also matches
    non-ASCII decimal digits of the UTF-8-decoded input, which [list ascii]
    does not represent: every statement below is about ASCII text. *)
Definition text := list ascii.

Definition txt (s : string) : text := list_ascii_of_string s.

Definition ascii_eqb (a b : ascii) : bool := if ascii_dec a b then true else false.

Definition in_range (lo hi c : ascii) : bool :=
  Nat.leb (nat_of_ascii lo) (nat_of_ascii c) && Nat.leb (nat_of_ascii c) (nat_of_ascii hi).

(** [\d] on ASCII characters *)
Definition is_digit (c : ascii) : bool := in_range "0" "9" c.

(** [[0-9a-fA-F]] *)
Definition is_hex (c : ascii) : bool :=
  in_range "0" "9" c || in_range "a" "f" c || in_range "A" "F" c.

(** Python [==] on [str]. *)
Fixpoint text_eqb (s t : text) : bool :=
  match s, t with
  | [], [] => true
  | a :: s', b :: t' => ascii_eqb a b && text_eqb s' t'
  | _, _ => false
  end.

(** [s.split(sep)] *)
Fixpoint split_on (sep : ascii) (s : text) : list text :=
  match s with
  | [] => [[]]
  | c :: s' =>
      let rest := split_on sep s' in
      if ascii_eqb c sep then [] :: rest
      else match rest with
           | w :: ws => (c :: w) :: ws
           | [] => [[c]]
           end
  end.

(** [sep.join(ws)] *)
Fixpoint join (sep : ascii) (ws : list text) : text :=
  match ws with
  | [] => []
  | [w] => w
  | w :: ws' => w ++ sep :: join sep ws'
  end.

(** ** The exclusion list ([excluded_ips]) *)

Definition excluded_ips : list text := map txt [
    "127.0.0.1"; "127.0.0.2"; "148.251.207.64"; "148.251.207.65"; "148.251.207.66";
    "148.251.207.67"; "148.251.207.68"; "148.251.207.69"; "148.251.207.70";
    "148.251.207.71"; "148.251.207.72"; "148.251.207.73"; "148.251.207.74";
    "148.251.207.75"; "148.251.207.76"; "148.251.207.77"; "148.251.207.78";
    "148.251.207.79"; "2a01:4f8:173:2203:0:0:0:2"; "2a01:4f8:173:2203:0:0:0:64";
    "2a01:4f8:173:2203:0:0:0:65"; "2a01:4f8:173:2203:0:0:0:66"; "2a01:4f8:173:2203:0:0:0:67";
    "2a01:4f8:173:2203:0:0:0:68"; "2a01:4f8:173:2203:0:0:0:69"; "2a01:4f8:173:2203:0:0:0:70";
    "2a01:4f8:173:2203:0:0:0:71"; "2a01:4f8:173:2203:0:0:0:72"; "2a01:4f8:173:2203:0:0:0:73";
    "2a01:4f8:173:2203:0:0:0:74"; "2a01:4f8:173:2203:0:0:0:75"; "2a01:4f8:173:2203:0:0:0:76";
    "2a01:4f8:173:2203:0:0:0:77"; "2a01:4f8:173:2203:0:0:0:78"; "2a01:4f8:173:2203:0:0:0:79"
  ]%string.

(** [ip_address in excluded_ips] *)
Definition is_excluded (ip : text) : bool := existsb (text_eqb ip) excluded_ips.

(** ** [anonymize_ipv4] and [anonymize_ipv6] *)

Definition anonymize_ipv4 (ip_address : text) : text :=
  let octets := split_on "." ip_address in
  let anonymized_octets := firstn 2 octets ++ [txt "XXX"; txt "XXX"] in
  join "." anonymized_octets.

(** [['XXXX'] * (8 - len(groups))]: a negative count gives the empty list,
    as the truncated subtraction on [nat] does. *)
Definition anonymize_ipv6 (ip_address : text) : text :=
  let groups := split_on ":" ip_address in
  let anonymized_groups := firstn 2 groups ++ repeat (txt "XXXX") (8 - List.length groups) in
  join ":" anonymized_groups.

(** ** Python's [re] matcher, restricted to the constructs of [ip_pattern]

    A backtracking matcher in continuation-passing style, as [sre] runs:
    alternatives are tried in order, [?] and [{lo,hi}] are greedy and give
    back one repetition at a time when the rest of the pattern fails. The
    only capture is the named group [ip]. *)

Inductive regex : Type :=
| RChar (p : ascii -> bool)          (* a character class or literal *)
| RSeq (r1 r2 : regex)
| RAlt (r1 r2 : regex)               (* r1|r2 *)
| ROpt (r : regex)                   (* r? *)
| RRep (r : regex) (lo hi : nat)     (* r{lo,hi} *)
| RGroup (r : regex).                (* (?P<ip>r) *)

Definition cap := option text.
Definition answer := option (text * cap).
Definition cont := text -> cap -> answer.

(** [r] exactly [n] times, then [k] *)
Fixpoint rep_exact (m : text -> cap -> cont -> answer) (n : nat)
    (s : text) (g : cap) (k : cont) : answer :=
  match n with
  | 0 => k s g
  | S n' => m s g (fun s1 g1 => rep_exact m n' s1 g1 k)
  end.

(** [r] at most [n] more times, greedily, then [k] *)
Fixpoint rep_upto (m : text -> cap -> cont -> answer) (n : nat)
    (s : text) (g : cap) (k : cont) : answer :=
  match n with
  | 0 => k s g
  | S n' =>
      match m s g (fun s1 g1 => rep_upto m n' s1 g1 k) with
      | Some a => Some a
      | None => k s g
      end
  end.

Fixpoint mt (r : regex) (s : text) (g : cap) (k : cont) : answer :=
  match r with
  | RChar p => match s with c :: s' => if p c then k s' g else None | [] => None end
  | RSeq r1 r2 => mt r1 s g (fun s1 g1 => mt r2 s1 g1 k)
  | RAlt r1 r2 =>
      match mt r1 s g k with Some a => Some a | None => mt r2 s g k end
  | ROpt r1 =>
      match mt r1 s g k with Some a => Some a | None => k s g end
  | RRep r1 lo hi =>
      rep_exact (mt r1) lo s g (fun s1 g1 => rep_upto (mt r1) (hi - lo) s1 g1 k)
  | RGroup r1 =>
      mt r1 s g (fun s1 g1 => k s1 (Some (firstn (List.length s - List.length s1) s)))
  end.

Definition lit (c : ascii) : regex := RChar (ascii_eqb c).
Definition digit : regex := RChar is_digit.
Definition hexd : regex := RChar is_hex.

(** [(?:\d{1,3}\.){3}\d{1,3}] *)
Definition ipv4_re : regex :=
  RSeq (RRep (RSeq (RRep digit 1 3) (lit ".")) 3 3) (RRep digit 1 3).

(** [(?:[0-9a-fA-F]{1,4}:){7}[0-9a-fA-F]{1,4}] *)
Definition ipv6_re : regex :=
  RSeq (RRep (RSeq (RRep hexd 1 4) (lit ":")) 7 7) (RRep hexd 1 4).

(** [\[?(?P<ip>...|...)\]?] *)
Definition ip_pattern : regex :=
  RSeq (ROpt (lit "[")) (RSeq (RGroup (RAlt ipv4_re ipv6_re)) (ROpt (lit "]"))).

(** A match object: [match.group()] and [match.group('ip')]. *)
Record Match : Type := mkMatch { m_group : text; m_ip : text }.

(** [pattern.match(s)] at the current position. *)
Definition match_at (s : text) : option Match :=
  match mt ip_pattern s None (fun s1 g1 => Some (s1, g1)) with
  | Some (rest, Some ip) => Some (mkMatch (firstn (List.length s - List.length rest) s) ip)
  | _ => None
  end.
(** ** [replace_ip], the callback of [re.sub]

    [reader.country(ip).country.iso_code], formatted by the f-string: [Ok cc]
    is the text put between the brackets, [Err] the exception the lookup
    raises (address not in the database, malformed address). *)

Definition Reader := text -> result text.

Definition replace_ip (reader : Reader) (replace_with_country_code : bool)
    (m : Match) : result text :=
  let ip_address := m_ip m in
  if is_excluded ip_address then Ok (m_group m)      (* preserve brackets if present *)
  else
    try_except
      (if replace_with_country_code then
         country_code <- reader ip_address ;;
         Ok (["["] ++ country_code ++ ["]"])
       else if existsb (ascii_eqb ".") ip_address then Ok (anonymize_ipv4 ip_address)
       else Ok (anonymize_ipv6 ip_address))
      (fun _ => Ok (m_group m)).                   (* return original if unable to process *)

(** ** [re.sub(pattern, repl, content)]

    Scans left to right; at each position not covered by the previous match
    it tries the pattern; on a match it emits [repl(match)] and resumes after
    the match ([skip] counts the characters of the match still to pass
    over), otherwise it copies the character. An exception raised by [repl]
    propagates out of [re.sub]. The pattern never matches the empty string,
    so the special handling of empty matches never applies. *)

Fixpoint re_sub_go (repl : Match -> result text) (s : text) (skip : nat) : result text :=
  match s with
  | [] => Ok []
  | c :: s' =>
      match skip with
      | S skip' => re_sub_go repl s' skip'
      | 0 =>
          match match_at s with
          | Some m =>
              r <- repl m ;;
              out <- re_sub_go repl s' (List.length (m_group m) - 1) ;;
              Ok (r ++ out)
          | None =>
              out <- re_sub_go repl s' 0 ;;
              Ok (c :: out)
          end
      end
  end.

Definition re_sub (repl : Match -> result text) (s : text) : result text :=
  re_sub_go repl s 0.

(** [anonymize_ip_addresses]: [Reader(geolite_database)] is the opened
    database, or the exception raised when it cannot be opened. *)
Definition anonymize_ip_addresses (content : text) (geolite_database : result Reader)
    (replace_with_country_code : bool) : result text :=
  reader <- geolite_database ;;
  re_sub (replace_ip reader replace_with_country_code) content.

(** The same left-to-right scan as [re.sub], recording the partition of the
    input into copied characters and matches ([re.finditer] plus the text
    between the matches). *)

Inductive seg : Type :=
| Plain (c : ascii)
| Hit (m : Match).

Fixpoint segments_go (s : text) (skip : nat) : list seg :=
  match s with
  | [] => []
  | c :: s' =>
      match skip with
      | S skip' => segments_go s' skip'
      | 0 =>
          match match_at s with
          | Some m => Hit m :: segments_go s' (List.length (m_group m) - 1)
          | None => Plain c :: segments_go s' 0
          end
      end
  end.

Definition segments (s : text) : list seg := segments_go s 0.

(** The input text a segment covers. *)
Definition seg_text (x : seg) : text :=
  match x with Plain c => [c] | Hit m => m_group m end.

(** ** [main]

    The file system is reduced to what [main] touches: the input file, the
    temporary file and the log. [Env] fixes the outside world: whether the
    GeoLite2 database opens, and whether writing the temporary file or
    moving it over the input raises. *)

Inductive level : Type := Info | Error.

Record World : Type := mkWorld {
  w_input : option text;        (* contents of input_file; None: unreadable *)
  w_temp : option text;         (* the NamedTemporaryFile, once created *)
  w_log : list level            (* anonymize.log *)
}.

(** How [NamedTemporaryFile(...)], [write] and [close] end: the file is
    written, it cannot be created, or the write raises after [n] characters
    reached the file. *)
Inductive write_outcome : Type :=
| Written
| CreateFails
| WriteFails (n : nat).

(** How [shutil.move] ends. It first tries [os.rename]; when that raises
    (a temporary directory on another file system), it runs [copy2] into the
    input file and then unlinks the temporary file. [copy2] opens the input
    file for writing (truncating it), copies, then copies the metadata.
    [Moved]: renamed, or copied and unlinked. [CopyOpenFails]: the input
    file cannot be opened for writing. [CopyWriteFails n]: the copy raises
    after [n] characters. [CopiedThenFails]: the content is copied but
    [copystat] or [unlink] raises. *)
Inductive move_outcome : Type :=
| Moved
| CopyOpenFails
| CopyWriteFails (n : nat)
| CopiedThenFails.

Record Env : Type := mkEnv {
  e_db : result Reader;
  e_write : write_outcome;
  e_move : move_outcome
}.

Definition io (A : Type) : Type := World -> result A * World.

Definition io_ret {A} (a : A) : io A := fun w => (Ok a, w).

Definition io_bind {A B} (c : io A) (f : A -> io B) : io B :=
  fun w => match c w with
           | (Ok a, w1) => f a w1
           | (Err e, w1) => (Err e, w1)
           end.

Definition io_lift {A} (r : result A) : io A := fun w => (r, w).

Definition log_entry (l : level) : io unit :=
  fun w => (Ok tt, mkWorld (w_input w) (w_temp w) (w_log w ++ [l])).

(** [open(args.input_file, ...).read()] *)
Definition read_input : io text :=
  fun w => match w_input w with
           | Some c => (Ok c, w)
           | None => (Err OSError, w)
           end.

(** [NamedTemporaryFile(mode='w', delete=False)], [write], [close]. *)
Definition write_temp (env : Env) (out : text) : io unit :=
  fun w => match e_write env with
           | Written => (Ok tt, mkWorld (w_input w) (Some out) (w_log w))
           | CreateFails => (Err OSError, w)
           | WriteFails n => (Err OSError, mkWorld (w_input w) (Some (firstn n out)) (w_log w))
           end.

(** [shutil.move(temp_filename, args.input_file)]. *)
Definition move_temp (env : Env) : io unit :=
  fun w => match w_temp w with
           | None => (Err OSError, w)
           | Some c =>
               match e_move env with
               | Moved => (Ok tt, mkWorld (Some c) None (w_log w))
               | CopyOpenFails => (Err OSError, w)
               | CopyWriteFails n => (Err OSError, mkWorld (Some (firstn n c)) (Some c) (w_log w))
               | CopiedThenFails => (Err OSError, mkWorld (Some c) (Some c) (w_log w))
               end
           end.

(** [main()] after argument parsing; the first component is the exit
    status: [sys.exit(1)] gives 1, returning from [main] gives 0. *)
Definition main (cc : bool) (env : Env) (w0 : World) : nat * World :=
  match read_input w0 with
  | (Err _, w1) => (1, snd (log_entry Error w1))
  | (Ok content, w1) =>
      let body : io unit :=
        io_bind (io_lift (anonymize_ip_addresses content (e_db env) cc)) (fun out =>
        io_bind (write_temp env out) (fun _ =>
        io_bind (move_temp env) (fun _ =>
        log_entry Info))) in
      match body w1 with
      | (Ok _, w2) => (0, w2)
      | (Err _, w2) => (0, snd (log_entry Error w2))
      end
  end.

(** Two lookups used in the examples: one that raises for every address and
    one that places every address in the US. *)
Definition no_reader : Reader := fun _ => Err LookupError.
Definition us_reader : Reader := fun _ => Ok (txt "US").

(** The outcome the per-candidate error policy describes, written from that
    policy rather than from the code: an excluded candidate is kept as
    matched; in CountryCode mode the bracketed code, or the matched text
    when the lookup raises; in Mask mode the masked form. *)
Definition candidate_outcome (reader : Reader) (cc : bool) (m : Match) : text :=
  if is_excluded (m_ip m) then m_group m
  else if cc then
    match reader (m_ip m) with
    | Ok code => ["["] ++ code ++ ["]"]
    | Err _ => m_group m
    end
  else if existsb (ascii_eqb ".") (m_ip m) then anonymize_ipv4 (m_ip m)
  else anonymize_ipv6 (m_ip m).

(** No position of the text starts a match. *)
Fixpoint no_hit (s : text) : Prop :=
  match s with
  | [] => True
  | _ :: s' => match_at s = None /\ no_hit s'
  end.

(** ** A greedy reading of [ip_pattern]

    In every repetition of [ip_pattern] the character after the repeated
    class is outside the class, so backtracking never finds a shorter
    repetition that succeeds: the pattern behaves as the greedy scanner
    below ([mt_ip_pattern_det] proves it). *)

(** Drop at most [n] leading characters of class [p]. *)
Fixpoint dropmax (p : ascii -> bool) (n : nat) (s : text) : text :=
  match n, s with
  | S n', c :: s' => if p c then dropmax p n' s' else s
  | _, _ => s
  end.

(** [p{1,n+1}] *)
Definition grp (p : ascii -> bool) (n : nat) (s : text) : option text :=
  match s with
  | c :: s' => if p c then Some (dropmax p n s') else None
  | [] => None
  end.

(** [p{1,n+1}] followed by one character of class [q] *)
Definition grp_sep (p : ascii -> bool) (n : nat) (q : ascii -> bool) (s : text) : option text :=
  match grp p n s with
  | Some (d :: s') => if q d then Some s' else None
  | _ => None
  end.

Definition obind (o : option text) (f : text -> option text) : option text :=
  match o with Some x => f x | None => None end.

Fixpoint iter_opt (f : text -> option text) (n : nat) (s : text) : option text :=
  match n with
  | 0 => Some s
  | S n' => obind (f s) (iter_opt f n')
  end.

Definition v4_det (s : text) : option text :=
  obind (iter_opt (grp_sep is_digit 2 (ascii_eqb ".")) 3 s) (grp is_digit 2).

Definition v6_det (s : text) : option text :=
  obind (iter_opt (grp_sep is_hex 3 (ascii_eqb ":")) 7 s) (grp is_hex 3).

Definition alt_det (s : text) : option text :=
  match v4_det s with Some r => Some r | None => v6_det s end.

Definition open_br (s : text) : text :=
  match s with c :: s' => if ascii_eqb "[" c then s' else s | [] => s end.

Definition close_br (s : text) : text :=
  match s with c :: s' => if ascii_eqb "]" c then s' else s | [] => s end.

(** The rest of the text after the match, and the [ip] group. *)
Definition det_at (s : text) : option (text * text) :=
  let s1 := open_br s in
  match alt_det s1 with
  | Some r => Some (close_br r, firstn (List.length s1 - List.length r) s1)
  | None => None
  end.

(** ** Shapes of candidates *)

(** A group of 1..n characters of class [p]. *)
Definition dgroup (p : ascii -> bool) (n : nat) (w : text) : Prop :=
  w <> [] /\ Forall (fun c => p c = true) w /\ List.length w <= n.

(** [a.b.c.d] *)
Definition ipv4_text (a b c d : text) : text := a ++ "." :: b ++ "." :: c ++ "." :: d.

Definition ipv4_shape (a b c d : text) : Prop :=
  dgroup is_digit 3 a /\ dgroup is_digit 3 b /\ dgroup is_digit 3 c /\ dgroup is_digit 3 d.

(** [g1:g2:...:g8] *)
Definition ipv6_text (gs : list text) : text := join ":" gs.

Definition ipv6_shape (gs : list text) : Prop :=
  List.length gs = 8 /\ Forall (dgroup is_hex 4) gs.

(** ** Auxiliary definitions for the proofs *)

(** The characters an address can consist of. *)
Definition ipchar (c : ascii) : bool := is_hex c || ascii_eqb "." c || ascii_eqb ":" c.

(** Emitting the segments in order, with [repl] on the matches and its
    exceptions propagated. *)
Fixpoint render (repl : Match -> result text) (xs : list seg) : result text :=
  match xs with
  | [] => Ok []
  | Plain c :: xs' => out <- render repl xs' ;; Ok (c :: out)
  | Hit m :: xs' => r <- repl m ;; out <- render repl xs' ;; Ok (r ++ out)
  end.

Definition seg_out (f : Match -> text) (x : seg) : text :=
  match x with Plain c => [c] | Hit m => f m end.

(** The text [replace_ip] returns for a match. *)
Definition replacement (reader : Reader) (cc : bool) (m : Match) : text :=
  match replace_ip reader cc m with Ok r => r | Err _ => m_group m end.

(** The next character, if any, is outside class [p]. *)
Definition stops (p : ascii -> bool) (s : text) : Prop :=
  match s with c :: _ => p c = false | [] => True end.

(** Occurrences of a character. *)
Definition cnt (x : ascii) (s : text) : nat := count_occ ascii_dec s x.

(** Neither bracket. *)
Definition nobracket (c : ascii) : Prop := c <> "[" /\ c <> "]".

(** A scan result, moved past a separator [c] and the text [t] after it. *)
Definition ext_by (c : ascii) (t : text) (o : option text) : option text :=
  option_map (fun r => r ++ c :: t) o.

(** ** Lemmas: the matcher *)

Lemma mt_seq r1 r2 s g k :
  mt (RSeq r1 r2) s g k = mt r1 s g (fun s1 g1 => mt r2 s1 g1 k).
Proof. reflexivity. Qed.

Lemma mt_rep r lo hi s g k :
  mt (RRep r lo hi) s g k
  = rep_exact (mt r) lo s g (fun s1 g1 => rep_upto (mt r) (hi - lo) s1 g1 k).
Proof. reflexivity. Qed.

Lemma upto_class_total p n s g k :
  (forall s g, k s g <> None) ->
  rep_upto (mt (RChar p)) n s g k = k (dropmax p n s) g.
Proof.
  intros Hk. revert s. induction n as [|n IH]; intros s; [reflexivity|].
  destruct s as [|c s]; simpl; [reflexivity|].
  destruct (p c) eqn:Hp; [|reflexivity].
  rewrite IH. destruct (k (dropmax p n s) g) eqn:E; [reflexivity|].
  exfalso; exact (Hk _ _ E).
Qed.

Lemma upto_class_fail p n s g k :
  (forall c s g, p c = true -> k (c :: s) g = None) ->
  rep_upto (mt (RChar p)) n s g k = k (dropmax p n s) g.
Proof.
  intros Hk. revert s. induction n as [|n IH]; intros s; [reflexivity|].
  destruct s as [|c s]; simpl; [reflexivity|].
  destruct (p c) eqn:Hp; [|reflexivity].
  rewrite IH. destruct (k (dropmax p n s) g) eqn:E; [reflexivity|].
  apply Hk; exact Hp.
Qed.

Lemma rep_exact1_char p c s g k :
  rep_exact (mt (RChar p)) 1 (c :: s) g k = if p c then k s g else None.
Proof. reflexivity. Qed.

Lemma grp_total p n s g k :
  (forall s g, k s g <> None) ->
  mt (RRep (RChar p) 1 (S n)) s g k
  = match grp p n s with Some r => k r g | None => None end.
Proof.
  intros Hk. rewrite mt_rep. destruct s as [|c s]; [reflexivity|].
  rewrite rep_exact1_char. unfold grp. destruct (p c); [|reflexivity].
  replace (S n - 1) with n by lia. apply upto_class_total; exact Hk.
Qed.

Lemma grp_sep_mt p n q s g k :
  (forall c, q c = true -> p c = false) ->
  mt (RSeq (RRep (RChar p) 1 (S n)) (RChar q)) s g k
  = match grp_sep p n q s with Some r => k r g | None => None end.
Proof.
  intros Hpq. rewrite mt_seq, mt_rep. unfold grp_sep, grp.
  destruct s as [|c s]; [reflexivity|].
  rewrite rep_exact1_char. destruct (p c) eqn:Hc; [|reflexivity].
  replace (S n - 1) with n by lia. rewrite upto_class_fail.
  - simpl. destruct (dropmax p n s) as [|d s']; [reflexivity|].
    destruct (q d); reflexivity.
  - intros c' s' g' Hc'. simpl. destruct (q c') eqn:Hq; [|reflexivity].
    rewrite (Hpq c' Hq) in Hc'. discriminate.
Qed.

Lemma rep_exact_det m f n s g k :
  (forall s g k, m s g k = match f s with Some r => k r g | None => None end) ->
  rep_exact m n s g k
  = match iter_opt f n s with Some r => k r g | None => None end.
Proof.
  intros Hm. revert s. induction n as [|n IH]; intros s; [reflexivity|].
  simpl. rewrite Hm. destruct (f s) as [r|]; simpl; [apply IH|reflexivity].
Qed.

Lemma dot_not_digit c : ascii_eqb "." c = true -> is_digit c = false.
Proof. unfold ascii_eqb. destruct (ascii_dec "." c); [subst; reflexivity|discriminate]. Qed.

Lemma colon_not_hex c : ascii_eqb ":" c = true -> is_hex c = false.
Proof. unfold ascii_eqb. destruct (ascii_dec ":" c); [subst; reflexivity|discriminate]. Qed.

Lemma mt_v4 s g k :
  (forall s g, k s g <> None) ->
  mt ipv4_re s g k = match v4_det s with Some r => k r g | None => None end.
Proof.
  intros Hk. unfold ipv4_re, v4_det. rewrite mt_seq, mt_rep.
  rewrite (rep_exact_det _ (grp_sep is_digit 2 (ascii_eqb "."))).
  - destruct (iter_opt _ 3 s) as [r|]; [|reflexivity]. cbn [obind rep_upto Nat.sub].
    apply grp_total; exact Hk.
  - intros s0 g0 k0. apply grp_sep_mt, dot_not_digit.
Qed.

Lemma mt_v6 s g k :
  (forall s g, k s g <> None) ->
  mt ipv6_re s g k = match v6_det s with Some r => k r g | None => None end.
Proof.
  intros Hk. unfold ipv6_re, v6_det. rewrite mt_seq, mt_rep.
  rewrite (rep_exact_det _ (grp_sep is_hex 3 (ascii_eqb ":"))).
  - destruct (iter_opt _ 7 s) as [r|]; [|reflexivity]. cbn [obind rep_upto Nat.sub].
    apply grp_total; exact Hk.
  - intros s0 g0 k0. apply grp_sep_mt, colon_not_hex.
Qed.

Lemma mt_alt s g k :
  (forall s g, k s g <> None) ->
  mt (RAlt ipv4_re ipv6_re) s g k
  = match alt_det s with Some r => k r g | None => None end.
Proof.
  intros Hk. cbn [mt]. rewrite mt_v4 by exact Hk. unfold alt_det.
  destruct (v4_det s) as [r|].
  - destruct (k r g) eqn:E; [reflexivity|]. exfalso; exact (Hk _ _ E).
  - apply mt_v6; exact Hk.
Qed.

Lemma mt_group r s g k :
  mt (RGroup r) s g k
  = mt r s g (fun s1 g1 => k s1 (Some (firstn (List.length s - List.length s1) s))).
Proof. reflexivity. Qed.

Lemma mt_opt r s g k :
  mt (ROpt r) s g k = match mt r s g k with Some a => Some a | None => k s g end.
Proof. reflexivity. Qed.

Lemma mt_char p c s g k :
  mt (RChar p) (c :: s) g k = if p c then k s g else None.
Proof. reflexivity. Qed.

Lemma alt_det_open_br s : alt_det ("[" :: s) = None.
Proof. reflexivity. Qed.

Lemma mt_close_br s g :
  mt (ROpt (lit "]")) s g (fun s1 g1 => Some (s1, g1)) = Some (close_br s, g).
Proof.
  destruct s as [|c s]; [reflexivity|]. cbn [mt lit close_br].
  destruct (ascii_eqb "]" c); reflexivity.
Qed.

(** The backtracking matcher and the greedy scanner agree on [ip_pattern]. *)
Lemma mt_ip_pattern_det s :
  mt ip_pattern s None (fun s1 g1 => Some (s1, g1))
  = match det_at s with Some (rest, ip) => Some (rest, Some ip) | None => None end.
Proof.
  assert (Hk : forall s1 g1,
    mt (RSeq (RGroup (RAlt ipv4_re ipv6_re)) (ROpt (lit "]"))) s1 g1
       (fun s2 g2 => Some (s2, g2))
    = match alt_det s1 with
      | Some r => Some (close_br r, Some (firstn (List.length s1 - List.length r) s1))
      | None => None end).
  { intros s1 g1. rewrite mt_seq, mt_group, mt_alt.
    - destruct (alt_det s1) as [r|]; [|reflexivity].
      rewrite mt_close_br. reflexivity.
    - intros s2 g2. rewrite mt_close_br. discriminate. }
  unfold ip_pattern, det_at. rewrite mt_seq, mt_opt.
  destruct s as [|c s].
  - reflexivity.
  - unfold lit. rewrite mt_char. unfold open_br. destruct (ascii_eqb "[" c) eqn:Ec.
    + rewrite Hk. destruct (alt_det s) as [r|]; [reflexivity|].
      rewrite Hk. unfold ascii_eqb in Ec. destruct (ascii_dec "[" c); [subst|discriminate].
      rewrite alt_det_open_br. reflexivity.
    + rewrite Hk. destruct (alt_det (c :: s)); reflexivity.
Qed.

Lemma match_at_det s :
  match_at s
  = match det_at s with
    | Some (rest, ip) => Some (mkMatch (firstn (List.length s - List.length rest) s) ip)
    | None => None
    end.
Proof.
  unfold match_at. rewrite mt_ip_pattern_det.
  destruct (det_at s) as [[rest ip]|]; reflexivity.
Qed.

(** ** Lemmas: what a match consumes *)

Lemma dropmax_suffix p n s :
  exists pre, s = pre ++ dropmax p n s /\ Forall (fun c => p c = true) pre.
Proof.
  revert s. induction n as [|n IH]; intros s; [exists []; auto|].
  destruct s as [|c s]; [exists []; auto|]. simpl.
  destruct (p c) eqn:Hc; [|exists []; auto].
  destruct (IH s) as [pre [Hpre Hall]]. exists (c :: pre). simpl.
  split; [f_equal; exact Hpre|constructor; assumption].
Qed.

Lemma grp_suffix p n s r :
  grp p n s = Some r ->
  exists c pre, s = c :: pre ++ r /\ Forall (fun c => p c = true) (c :: pre).
Proof.
  unfold grp. destruct s as [|c s]; [discriminate|].
  destruct (p c) eqn:Hc; [|discriminate]. intros H. injection H as <-.
  destruct (dropmax_suffix p n s) as [pre [Hpre Hall]]. exists c, pre.
  rewrite <- Hpre. split; [reflexivity|constructor; assumption].
Qed.

Lemma grp_sep_suffix p n q s r :
  grp_sep p n q s = Some r ->
  exists c pre, s = c :: pre ++ r /\ Forall (fun c => p c || q c = true) (c :: pre).
Proof.
  unfold grp_sep. destruct (grp p n s) as [[|d s']|] eqn:E; try discriminate.
  destruct (q d) eqn:Hd; [|discriminate]. intros H. injection H as <-.
  destruct (grp_suffix _ _ _ _ E) as [c [pre [-> Hall]]]. exists c, (pre ++ [d]).
  rewrite <- app_assoc. split; [reflexivity|].
  rewrite app_comm_cons. apply Forall_app. split.
  - eapply Forall_impl; [|exact Hall]. intros x Hx. rewrite Hx. reflexivity.
  - constructor; [rewrite Hd; apply orb_true_r|constructor].
Qed.

Lemma iter_opt_suffix (P : ascii -> Prop) f n s r :
  (forall s r, f s = Some r -> exists pre, s = pre ++ r /\ Forall P pre) ->
  iter_opt f n s = Some r -> exists pre, s = pre ++ r /\ Forall P pre.
Proof.
  intros Hf. revert s. induction n as [|n IH]; intros s H.
  - injection H as <-. exists []. auto.
  - simpl in H. destruct (f s) as [s1|] eqn:E; [|discriminate].
    destruct (Hf _ _ E) as [p1 [-> H1]]. destruct (IH _ H) as [p2 [-> H2]].
    exists (p1 ++ p2). split; [apply app_assoc|apply Forall_app; auto].
Qed.

Lemma iter_grp_suffix p n q k m s r :
  obind (iter_opt (grp_sep p n q) k s) (grp p m) = Some r ->
  exists c pre, s = c :: pre ++ r /\ Forall (fun c => p c || q c = true) (c :: pre).
Proof.
  assert (Hg : forall s r, grp_sep p n q s = Some r ->
    exists pre, s = pre ++ r /\ Forall (fun c => p c || q c = true) pre).
  { intros s0 r0 H. destruct (grp_sep_suffix _ _ _ _ _ H) as [c [pre [-> Hall]]].
    exists (c :: pre). auto. }
  destruct (iter_opt (grp_sep p n q) k s) as [s1|] eqn:E; [|discriminate].
  cbn [obind]. intros G.
  destruct (iter_opt_suffix _ _ _ _ _ Hg E) as [[|c0 p0] [-> H0]];
    destruct (grp_suffix _ _ _ _ G) as [c [pre [-> Hall]]].
  - exists c, pre. split; [reflexivity|].
    eapply Forall_impl; [|exact Hall]. intros x Hx. rewrite Hx. reflexivity.
  - exists c0, (p0 ++ c :: pre). simpl. rewrite <- app_assoc. split; [reflexivity|].
    rewrite app_comm_cons. apply Forall_app. split; [exact H0|].
    eapply Forall_impl; [|exact Hall]. intros x Hx. rewrite Hx. reflexivity.
Qed.

Lemma digit_hex c : is_digit c = true -> is_hex c = true.
Proof. unfold is_hex, is_digit. intros ->. reflexivity. Qed.

Lemma alt_det_suffix s r :
  alt_det s = Some r ->
  exists c pre, s = c :: pre ++ r /\ Forall (fun c => ipchar c = true) (c :: pre).
Proof.
  unfold alt_det. destruct (v4_det s) as [r1|] eqn:E4.
  - intros H. injection H as <-.
    destruct (iter_grp_suffix _ _ _ _ _ _ _ E4) as [c [pre [Hs Hall]]].
    exists c, pre. split; [exact Hs|]. eapply Forall_impl; [|exact Hall].
    intros x Hx. unfold ipchar. apply orb_true_iff in Hx as [Hx|Hx].
    + rewrite (digit_hex _ Hx). reflexivity.
    + rewrite Hx. rewrite orb_true_r. reflexivity.
  - intros E6. destruct (iter_grp_suffix _ _ _ _ _ _ _ E6) as [c [pre [Hs Hall]]].
    exists c, pre. split; [exact Hs|]. eapply Forall_impl; [|exact Hall].
    intros x Hx. unfold ipchar. apply orb_true_iff in Hx as [Hx|Hx]; rewrite Hx.
    + reflexivity.
    + rewrite !orb_true_r. reflexivity.
Qed.

Lemma open_br_suffix s : exists pre, s = pre ++ open_br s.
Proof.
  destruct s as [|c s]; [exists []; reflexivity|]. simpl.
  destruct (ascii_eqb "[" c); [exists [c]|exists []]; reflexivity.
Qed.

Lemma close_br_suffix s : exists pre, s = pre ++ close_br s.
Proof.
  destruct s as [|c s]; [exists []; reflexivity|]. simpl.
  destruct (ascii_eqb "]" c); [exists [c]|exists []]; reflexivity.
Qed.

Lemma firstn_app_length (pre rest : text) :
  firstn (List.length (pre ++ rest) - List.length rest) (pre ++ rest) = pre.
Proof.
  rewrite length_app. replace (List.length pre + List.length rest - List.length rest)
    with (List.length pre) by lia.
  rewrite firstn_app, Nat.sub_diag, firstn_all. simpl. apply app_nil_r.
Qed.

(** A match covers a non-empty prefix of the text. *)
Lemma match_at_prefix s m :
  match_at s = Some m -> m_group m <> [] /\ exists rest, s = m_group m ++ rest.
Proof.
  rewrite match_at_det. unfold det_at.
  destruct (alt_det (open_br s)) as [r|] eqn:A; [|discriminate].
  intros H. injection H as <-. simpl.
  destruct (open_br_suffix s) as [p1 Hp1].
  destruct (alt_det_suffix _ _ A) as [c [p2 [Hp2 _]]].
  destruct (close_br_suffix r) as [p3 Hp3].
  assert (Hs : s = (p1 ++ c :: p2 ++ p3) ++ close_br r).
  { rewrite Hp1 at 1. rewrite Hp2. rewrite Hp3 at 1.
    rewrite <- app_assoc. simpl. rewrite <- app_assoc. reflexivity. }
  rewrite Hs, firstn_app_length. split.
  - destruct p1; discriminate.
  - exists (close_br r). reflexivity.
Qed.

(** ** Lemmas: [re.sub] over the segments of the text *)

Lemma re_sub_go_render repl s skip :
  re_sub_go repl s skip = render repl (segments_go s skip).
Proof.
  revert skip. induction s as [|c s IH]; intros skip; [reflexivity|].
  destruct skip as [|skip]; simpl; [|apply IH].
  destruct (match_at (c :: s)) as [m|]; simpl; rewrite IH; reflexivity.
Qed.

Lemma render_total repl f xs :
  (forall m, repl m = Ok (f m)) ->
  render repl xs = Ok (List.concat (map (seg_out f) xs)).
Proof.
  intros Hf. induction xs as [|[c|m] xs IH]; simpl; [reflexivity| |].
  - rewrite IH. reflexivity.
  - rewrite Hf. simpl. rewrite IH. reflexivity.
Qed.

Lemma segments_go_text s skip :
  skip <= List.length s ->
  List.concat (map seg_text (segments_go s skip)) = skipn skip s.
Proof.
  revert skip. induction s as [|c s IH]; intros skip Hle.
  - destruct skip; reflexivity.
  - destruct skip as [|skip]; simpl.
    + destruct (match_at (c :: s)) as [m|] eqn:M; simpl.
      * destruct (match_at_prefix _ _ M) as [Hne [rest Hs]].
        destruct (m_group m) as [|c' g'] eqn:G; [contradiction|].
        injection Hs as <- Hs. simpl. rewrite Nat.sub_0_r, IH.
        -- rewrite Hs, skipn_app, skipn_all, Nat.sub_diag. reflexivity.
        -- rewrite Hs, length_app. lia.
      * rewrite IH by lia. reflexivity.
    + simpl in Hle. apply IH. lia.
Qed.

Lemma segments_text s : List.concat (map seg_text (segments s)) = s.
Proof. unfold segments. rewrite segments_go_text; [reflexivity|lia]. Qed.

Lemma replace_ip_total reader cc m :
  exists r, replace_ip reader cc m = Ok r.
Proof.
  unfold replace_ip. destruct (is_excluded (m_ip m)); [eexists; reflexivity|].
  unfold try_except. destruct cc.
  - destruct (reader (m_ip m)); simpl; eexists; reflexivity.
  - destruct (existsb (ascii_eqb ".") (m_ip m)); eexists; reflexivity.
Qed.

Lemma replace_ip_replacement reader cc m :
  replace_ip reader cc m = Ok (replacement reader cc m).
Proof.
  unfold replacement. destruct (replace_ip_total reader cc m) as [r ->]. reflexivity.
Qed.

Lemma anonymize_segments reader cc s :
  anonymize_ip_addresses s (Ok reader) cc
  = Ok (List.concat (map (seg_out (replacement reader cc)) (segments s))).
Proof.
  unfold anonymize_ip_addresses, re_sub. simpl. rewrite re_sub_go_render.
  apply render_total. apply replace_ip_replacement.
Qed.

(** ** Lemmas: the scanner on candidate shapes *)

Lemma dropmax_app p n w rest :
  Forall (fun c => p c = true) w -> List.length w <= n ->
  (List.length w = n \/ stops p rest) ->
  dropmax p n (w ++ rest) = rest.
Proof.
  revert n. induction w as [|c w IH]; intros n Hall Hlen Hstop.
  - simpl in *. destruct n as [|n]; [reflexivity|].
    destruct Hstop as [Hn|Hs]; [discriminate|].
    destruct rest as [|d rest]; [reflexivity|]. simpl in *. rewrite Hs. reflexivity.
  - inversion Hall as [|? ? Hc Hw]; subst. simpl in Hlen.
    destruct n as [|n]; [lia|]. simpl. rewrite Hc. apply IH; [exact Hw|lia|].
    simpl in Hstop. destruct Hstop as [Hn|Hs]; [left; lia|right; exact Hs].
Qed.

Lemma grp_app p n w rest :
  dgroup p (S n) w -> (List.length w = S n \/ stops p rest) ->
  grp p n (w ++ rest) = Some rest.
Proof.
  intros [Hne [Hall Hlen]] Hstop. destruct w as [|c w]; [contradiction|].
  inversion Hall as [|? ? Hc Hw]; subst. simpl. rewrite Hc. f_equal.
  apply dropmax_app; [exact Hw|simpl in Hlen; lia|].
  simpl in Hstop. destruct Hstop as [Hn|Hs]; [left; lia|right; exact Hs].
Qed.

Lemma grp_sep_app p n q w d rest :
  dgroup p (S n) w -> p d = false -> q d = true ->
  grp_sep p n q (w ++ d :: rest) = Some rest.
Proof.
  intros Hw Hpd Hqd. unfold grp_sep. rewrite grp_app; [|exact Hw|right; exact Hpd].
  rewrite Hqd. reflexivity.
Qed.

Lemma dropmax_stop p n w d rest :
  p d = false ->
  exists w1 w2, w = w1 ++ w2 /\ dropmax p n (w ++ d :: rest) = w2 ++ d :: rest.
Proof.
  intros Hd. revert n. induction w as [|c w IH]; intros n.
  - exists [], []. split; [reflexivity|].
    destruct n; simpl; [reflexivity|]. rewrite Hd. reflexivity.
  - destruct n as [|n]; [exists [], (c :: w); split; reflexivity|].
    simpl. destruct (p c).
    + destruct (IH n) as [w1 [w2 [-> E]]]. exists (c :: w1), w2. split; [reflexivity|exact E].
    + exists [], (c :: w). split; reflexivity.
Qed.

(** A run of characters none of which is the separator, followed by a
    character outside both classes, is not a group. *)
Lemma grp_sep_fail p n q w d rest :
  Forall (fun c => q c = false) w -> q d = false -> p d = false ->
  grp_sep p n q (w ++ d :: rest) = None.
Proof.
  intros Hw Hqd Hpd. unfold grp_sep, grp.
  destruct w as [|c w]; simpl.
  - rewrite Hpd. reflexivity.
  - inversion Hw as [|? ? Hqc Hw']; subst. destruct (p c); [|reflexivity].
    destruct (dropmax_stop p n w d rest Hpd) as [w1 [w2 [-> E]]]. rewrite E.
    destruct w2 as [|c2 w2]; simpl; [rewrite Hqd; reflexivity|].
    apply Forall_app in Hw' as [_ Hw2]. inversion Hw2; subst.
    match goal with H : q c2 = false |- _ => rewrite H end. reflexivity.
Qed.

Lemma dgroup_suffix p n pre suf :
  dgroup p n (pre ++ suf) -> suf <> [] -> dgroup p n suf.
Proof.
  intros [_ [Hall Hlen]] Hne. apply Forall_app in Hall as [_ Hall].
  rewrite length_app in Hlen. split; [exact Hne|split; [exact Hall|lia]].
Qed.

Lemma dgroup_head p n w : dgroup p n w -> exists c w', w = c :: w' /\ p c = true.
Proof.
  intros [Hne [Hall _]]. destruct w as [|c w']; [contradiction|].
  inversion Hall; subst. exists c, w'. auto.
Qed.

Lemma v4_det_ipv4 a b c d rest :
  ipv4_shape a b c d -> (List.length d = 3 \/ stops is_digit rest) ->
  v4_det (a ++ "." :: b ++ "." :: c ++ "." :: d ++ rest) = Some rest.
Proof.
  intros [Ha [Hb [Hc Hd]]] Hstop. unfold v4_det. cbn [iter_opt].
  rewrite grp_sep_app by (exact Ha || reflexivity). cbn [obind].
  rewrite grp_sep_app by (exact Hb || reflexivity). cbn [obind].
  rewrite grp_sep_app by (exact Hc || reflexivity). cbn [obind].
  apply grp_app; [exact Hd|exact Hstop].
Qed.

Lemma open_br_digit c s : is_hex c = true -> open_br (c :: s) = c :: s.
Proof.
  intros H. unfold open_br, ascii_eqb. destruct (ascii_dec "[" c); [subst; discriminate|reflexivity].
Qed.

Lemma hex_not_sep c :
  is_hex c = true ->
  ascii_eqb c "." = false /\ ascii_eqb c ":" = false /\
  ascii_eqb "." c = false /\ ascii_eqb ":" c = false.
Proof.
  intros H. unfold ascii_eqb.
  destruct (ascii_dec c "."); [subst; discriminate|].
  destruct (ascii_dec c ":"); [subst; discriminate|].
  destruct (ascii_dec "." c); [subst; discriminate|].
  destruct (ascii_dec ":" c); [subst; discriminate|].
  auto.
Qed.

Lemma dgroup_digit_hex n w : dgroup is_digit n w -> dgroup is_hex n w.
Proof.
  intros [Hne [Hall Hlen]]. split; [exact Hne|split; [|exact Hlen]].
  eapply Forall_impl; [|exact Hall]. exact digit_hex.
Qed.

Lemma dgroup_nosep sep n w :
  (sep = "." \/ sep = ":") -> dgroup is_hex n w ->
  Forall (fun c => ascii_eqb c sep = false) w.
Proof.
  intros Hsep [_ [Hall _]]. eapply Forall_impl; [|exact Hall].
  intros c Hc. destruct (hex_not_sep c Hc) as [H1 [H2 _]].
  destruct Hsep as [->| ->]; assumption.
Qed.

Lemma split_on_app sep w t :
  Forall (fun c => ascii_eqb c sep = false) w ->
  split_on sep (w ++ sep :: t) = w :: split_on sep t.
Proof.
  intros Hw. induction w as [|c w IH]; simpl.
  - unfold ascii_eqb. destruct (ascii_dec sep sep); [reflexivity|contradiction].
  - inversion Hw as [|? ? Hc Hw']; subst. rewrite Hc, IH by exact Hw'. reflexivity.
Qed.

Lemma split_on_nosep sep w :
  Forall (fun c => ascii_eqb c sep = false) w -> split_on sep w = [w].
Proof.
  intros Hw. induction w as [|c w IH]; [reflexivity|]. simpl.
  inversion Hw as [|? ? Hc Hw']; subst. rewrite Hc, IH by exact Hw'. reflexivity.
Qed.

Lemma text_eqb_eq s t : text_eqb s t = true <-> s = t.
Proof.
  revert t. induction s as [|a s IH]; intros [|b t]; simpl; split; intros H;
    try reflexivity; try discriminate.
  - apply andb_true_iff in H as [Hab Hst]. unfold ascii_eqb in Hab.
    destruct (ascii_dec a b); [subst|discriminate]. f_equal. apply IH. exact Hst.
  - injection H as <- <-. apply andb_true_iff. split; [|apply IH; reflexivity].
    unfold ascii_eqb. destruct (ascii_dec a a); [reflexivity|contradiction].
Qed.

Lemma is_excluded_In ip : is_excluded ip = true <-> In ip excluded_ips.
Proof.
  unfold is_excluded. rewrite existsb_exists. split.
  - intros [x [Hx Heq]]. apply text_eqb_eq in Heq. subst. exact Hx.
  - intros H. exists ip. split; [exact H|]. apply text_eqb_eq. reflexivity.
Qed.

Lemma segments_go_skip s skip : List.length s <= skip -> segments_go s skip = [].
Proof.
  revert skip. induction s as [|c s IH]; intros skip H; [reflexivity|].
  destruct skip as [|skip]; simpl in *; [lia|]. apply IH. lia.
Qed.

(** A match covering the whole text is its only segment. *)
Lemma segments_whole s m :
  match_at s = Some m -> m_group m = s -> segments s = [Hit m].
Proof.
  intros M G. destruct s as [|c s].
  - destruct (match_at_prefix _ _ M) as [Hne _]. rewrite G in Hne. contradiction.
  - unfold segments. simpl. rewrite M, G, segments_go_skip; [reflexivity|simpl; lia].
Qed.

Lemma match_at_whole s ip :
  det_at s = Some ([], ip) -> match_at s = Some (mkMatch s ip).
Proof.
  intros D. rewrite match_at_det, D. simpl. rewrite Nat.sub_0_r, firstn_all. reflexivity.
Qed.

Lemma match_at_ipv4 a b c d :
  ipv4_shape a b c d ->
  match_at (ipv4_text a b c d) = Some (mkMatch (ipv4_text a b c d) (ipv4_text a b c d)).
Proof.
  intros Hs. apply match_at_whole.
  assert (Hopen : open_br (ipv4_text a b c d) = ipv4_text a b c d).
  { destruct Hs as [Ha _]. destruct (dgroup_head _ _ _ Ha) as [a1 [a' [Ea Ha1]]].
    unfold ipv4_text. rewrite Ea. simpl app. apply open_br_digit, digit_hex, Ha1. }
  assert (H4 : v4_det (ipv4_text a b c d) = Some []).
  { unfold ipv4_text. rewrite <- (app_nil_r d). apply v4_det_ipv4; [exact Hs|right; exact I]. }
  unfold det_at, alt_det. rewrite Hopen, H4. simpl.
  rewrite Nat.sub_0_r, firstn_all. reflexivity.
Qed.

Lemma anonymize_ipv4_text a b c d :
  ipv4_shape a b c d ->
  anonymize_ipv4 (ipv4_text a b c d) = a ++ "." :: b ++ txt ".XXX.XXX".
Proof.
  intros [Ha [Hb [Hc Hd]]]. unfold anonymize_ipv4, ipv4_text.
  assert (Hdot : "." = "." \/ "." = ":") by (left; reflexivity).
  rewrite split_on_app by (apply (dgroup_nosep _ 3); [exact Hdot|apply dgroup_digit_hex; exact Ha]).
  rewrite split_on_app by (apply (dgroup_nosep _ 3); [exact Hdot|apply dgroup_digit_hex; exact Hb]).
  rewrite split_on_app by (apply (dgroup_nosep _ 3); [exact Hdot|apply dgroup_digit_hex; exact Hc]).
  rewrite split_on_nosep by (apply (dgroup_nosep _ 3); [exact Hdot|apply dgroup_digit_hex; exact Hd]).
  reflexivity.
Qed.

Lemma ipv4_has_dot a b c d : existsb (ascii_eqb ".") (ipv4_text a b c d) = true.
Proof.
  apply existsb_exists. exists ".". split; [|reflexivity].
  unfold ipv4_text. apply in_or_app. right. left. reflexivity.
Qed.

Lemma replace_ip_mask_ipv4 reader m a b c d :
  ipv4_shape a b c d -> ~ In (ipv4_text a b c d) excluded_ips ->
  m_ip m = ipv4_text a b c d ->
  replace_ip reader false m = Ok (a ++ "." :: b ++ txt ".XXX.XXX").
Proof.
  intros Hs Hex Hm. unfold replace_ip. rewrite Hm.
  destruct (is_excluded (ipv4_text a b c d)) eqn:E.
  - apply is_excluded_In in E. contradiction.
  - rewrite ipv4_has_dot. simpl. rewrite anonymize_ipv4_text by exact Hs. reflexivity.
Qed.

Lemma Forall_join (P : ascii -> Prop) sep ws :
  P sep -> Forall (Forall P) ws -> Forall P (join sep ws).
Proof.
  intros Hs Hws. induction Hws as [|w ws Hw Hws IH]; [constructor|].
  destruct ws as [|w' ws']; [simpl; exact Hw|].
  change (Forall P (w ++ sep :: join sep (w' :: ws'))).
  apply Forall_app. split; [exact Hw|constructor; assumption].
Qed.

Lemma no_dot_existsb s :
  Forall (fun c => ascii_eqb "." c = false) s -> existsb (ascii_eqb ".") s = false.
Proof.
  intros H. induction H as [|c s Hc _ IH]; [reflexivity|]. simpl. rewrite Hc, IH. reflexivity.
Qed.

Lemma hex_no_dot w : Forall (fun c => is_hex c = true) w -> Forall (fun c => ascii_eqb "." c = false) w.
Proof.
  intros H. eapply Forall_impl; [|exact H]. intros c Hc. apply (hex_not_sep c Hc).
Qed.

Lemma hex_no_colon w : Forall (fun c => is_hex c = true) w -> Forall (fun c => ascii_eqb ":" c = false) w.
Proof.
  intros H. eapply Forall_impl; [|exact H]. intros c Hc. apply (hex_not_sep c Hc).
Qed.

(** The eight groups of an IPv6 shape, named. *)
Lemma ipv6_shape_groups gs :
  ipv6_shape gs ->
  exists g1 g2 g3 g4 g5 g6 g7 g8, gs = [g1; g2; g3; g4; g5; g6; g7; g8] /\
    Forall (dgroup is_hex 4) [g1; g2; g3; g4; g5; g6; g7; g8].
Proof.
  intros [Hlen Hall].
  destruct gs as [|g1 [|g2 [|g3 [|g4 [|g5 [|g6 [|g7 [|g8 [|]]]]]]]]]; try discriminate.
  exists g1, g2, g3, g4, g5, g6, g7, g8. auto.
Qed.

Lemma v6_det_ipv6 g1 g2 g3 g4 g5 g6 g7 g8 rest :
  Forall (dgroup is_hex 4) [g1; g2; g3; g4; g5; g6; g7; g8] ->
  (List.length g8 = 4 \/ stops is_hex rest) ->
  v6_det (g1 ++ ":" :: g2 ++ ":" :: g3 ++ ":" :: g4 ++ ":" :: g5 ++ ":" :: g6 ++ ":" ::
          g7 ++ ":" :: g8 ++ rest) = Some rest.
Proof.
  intros Hall Hstop.
  repeat match goal with H : Forall _ (_ :: _) |- _ => inversion H; subst; clear H end.
  unfold v6_det. cbn [iter_opt].
  do 7 (rewrite grp_sep_app by (assumption || reflexivity); cbn [obind]).
  apply grp_app; assumption.
Qed.

Lemma v4_det_hex_colon g rest :
  Forall (fun c => is_hex c = true) g -> v4_det (g ++ ":" :: rest) = None.
Proof.
  intros Hg. unfold v4_det. cbn [iter_opt].
  rewrite grp_sep_fail; [reflexivity|apply hex_no_dot; exact Hg|reflexivity|reflexivity].
Qed.

Lemma match_at_ipv6 gs :
  ipv6_shape gs ->
  match_at (ipv6_text gs) = Some (mkMatch (ipv6_text gs) (ipv6_text gs)).
Proof.
  intros Hs. apply match_at_whole.
  destruct (ipv6_shape_groups gs Hs) as [g1 [g2 [g3 [g4 [g5 [g6 [g7 [g8 [-> Hall]]]]]]]]].
  unfold ipv6_text. simpl join.
  inversion Hall as [|? ? Hg1 _]; subst.
  destruct (dgroup_head _ _ _ Hg1) as [c1 [g1' [Eg1 Hc1]]].
  assert (Hopen : forall t, open_br (g1 ++ t) = g1 ++ t).
  { intros t. rewrite Eg1. simpl app. apply open_br_digit, Hc1. }
  unfold det_at, alt_det. rewrite Hopen.
  rewrite v4_det_hex_colon by (destruct Hg1 as [_ [H _]]; exact H).
  rewrite <- (app_nil_r g8), v6_det_ipv6; [|exact Hall|right; exact I].
  simpl. rewrite Nat.sub_0_r, firstn_all. reflexivity.
Qed.

Lemma anonymize_ipv6_text gs :
  ipv6_shape gs -> anonymize_ipv6 (ipv6_text gs) = nth 0 gs [] ++ ":" :: nth 1 gs [].
Proof.
  intros Hs.
  destruct (ipv6_shape_groups gs Hs) as [g1 [g2 [g3 [g4 [g5 [g6 [g7 [g8 [-> Hall]]]]]]]]].
  unfold anonymize_ipv6, ipv6_text. simpl join.
  assert (Hc : ":" = "." \/ ":" = ":") by (right; reflexivity).
  repeat match goal with H : Forall _ (_ :: _) |- _ => inversion H; subst; clear H end.
  do 7 (rewrite split_on_app by (apply (dgroup_nosep _ 4); assumption)).
  rewrite split_on_nosep by (apply (dgroup_nosep _ 4); assumption).
  reflexivity.
Qed.

Lemma ipv6_text_chars gs :
  ipv6_shape gs -> Forall (fun c => is_hex c = true \/ c = ":") (ipv6_text gs).
Proof.
  intros [_ Hall]. apply Forall_join; [right; reflexivity|].
  eapply Forall_impl; [|exact Hall]. intros w [_ [Hw _]].
  eapply Forall_impl; [|exact Hw]. intros c Hc. left; exact Hc.
Qed.

Lemma ipv6_no_dot gs : ipv6_shape gs -> existsb (ascii_eqb ".") (ipv6_text gs) = false.
Proof.
  intros Hs. apply no_dot_existsb. eapply Forall_impl; [|exact (ipv6_text_chars gs Hs)].
  intros c [Hc| ->]; [apply (hex_not_sep c Hc)|reflexivity].
Qed.

(** Mask mode on a full-form IPv6 text keeps only the first two groups. *)
Lemma anonymize_ipv6_candidate reader gs :
  ipv6_shape gs -> ~ In (ipv6_text gs) excluded_ips ->
  anonymize_ip_addresses (ipv6_text gs) (Ok reader) false
  = Ok (nth 0 gs [] ++ ":" :: nth 1 gs []).
Proof.
  intros Hs Hex.
  rewrite anonymize_segments, (segments_whole _ _ (match_at_ipv6 gs Hs) eq_refl).
  simpl. rewrite app_nil_r. unfold replacement, replace_ip. simpl m_ip.
  destruct (is_excluded (ipv6_text gs)) eqn:E.
  - apply is_excluded_In in E. contradiction.
  - rewrite ipv6_no_dot by exact Hs. simpl. rewrite anonymize_ipv6_text by exact Hs.
    reflexivity.
Qed.

(** A digit glued in front of a three-digit first group makes the text at
    that digit no candidate. *)
Lemma match_at_digit_ipv4 x a b c d :
  is_digit x = true -> ipv4_shape a b c d -> List.length a = 3 ->
  match_at (x :: ipv4_text a b c d) = None.
Proof.
  intros Hx Hs Hlen. rewrite match_at_det. unfold det_at, alt_det.
  rewrite open_br_digit by (apply digit_hex; exact Hx).
  destruct Hs as [[_ [Ha _]] _].
  destruct a as [|a1 [|a2 [|a3 [|]]]]; try discriminate.
  inversion Ha as [|? ? Ha1 Ha']; subst. inversion Ha' as [|? ? Ha2 Ha'']; subst.
  inversion Ha'' as [|? ? Ha3 _]; subst.
  assert (Hv4 : v4_det (x :: ipv4_text [a1; a2; a3] b c d) = None).
  { unfold v4_det, ipv4_text. cbn [iter_opt]. unfold grp_sep, grp. simpl.
    rewrite Hx, Ha1, Ha2. destruct (hex_not_sep a3 (digit_hex _ Ha3)) as [_ [_ [-> _]]].
    reflexivity. }
  assert (Hv6 : v6_det (x :: ipv4_text [a1; a2; a3] b c d) = None).
  { unfold v6_det, ipv4_text. cbn [iter_opt].
    change (x :: [a1; a2; a3] ++ "." :: ?t) with ([x; a1; a2; a3] ++ "." :: t).
    rewrite grp_sep_fail; [reflexivity| |reflexivity|reflexivity].
    apply hex_no_colon. repeat constructor; apply digit_hex; assumption. }
  rewrite Hv4, Hv6. reflexivity.
Qed.

(** Mask mode on a non-excluded IPv4 text. *)
Lemma anonymize_ipv4_candidate reader a b c d :
  ipv4_shape a b c d -> ~ In (ipv4_text a b c d) excluded_ips ->
  anonymize_ip_addresses (ipv4_text a b c d) (Ok reader) false
  = Ok (a ++ "." :: b ++ txt ".XXX.XXX").
Proof.
  intros Hs Hex.
  rewrite anonymize_segments, (segments_whole _ _ (match_at_ipv4 a b c d Hs) eq_refl).
  simpl. rewrite app_nil_r. unfold replacement.
  rewrite (replace_ip_mask_ipv4 reader (mkMatch (ipv4_text a b c d) (ipv4_text a b c d))
             a b c d Hs Hex eq_refl). reflexivity.
Qed.

(** An excluded candidate text is left as it is. *)
Lemma anonymize_excluded_candidate reader cc ip :
  match_at ip = Some (mkMatch ip ip) -> In ip excluded_ips ->
  anonymize_ip_addresses ip (Ok reader) cc = Ok ip.
Proof.
  intros M Hex. rewrite anonymize_segments, (segments_whole _ _ M eq_refl).
  simpl. rewrite app_nil_r. unfold replacement, replace_ip. simpl.
  apply is_excluded_In in Hex. rewrite Hex. reflexivity.
Qed.

Lemma segments_no_hit s : no_hit s -> segments_go s 0 = map Plain s.
Proof.
  induction s as [|c s IH]; intros H; [reflexivity|].
  destruct H as [M H]. simpl. rewrite M, IH by exact H. reflexivity.
Qed.

Lemma anonymize_no_hit reader cc s : no_hit s -> anonymize_ip_addresses s (Ok reader) cc = Ok s.
Proof.
  intros H. rewrite anonymize_segments. unfold segments. rewrite segments_no_hit by exact H.
  f_equal. induction s as [|c s IH]; [reflexivity|]. simpl. f_equal. apply IH. apply H.
Qed.

Lemma no_hit_app w rest :
  no_hit rest ->
  (forall pre suf, w = pre ++ suf -> suf <> [] -> match_at (suf ++ rest) = None) ->
  no_hit (w ++ rest).
Proof.
  intros Hr. induction w as [|c w IH]; intros Hw; [exact Hr|].
  split.
  - apply (Hw [] (c :: w)); [reflexivity|discriminate].
  - apply IH. intros pre suf E Hne. apply (Hw (c :: pre) suf); [rewrite E; reflexivity|exact Hne].
Qed.

Lemma match_at_none_hex s :
  (exists c t, s = c :: t /\ is_hex c = true) -> v4_det s = None -> v6_det s = None ->
  match_at s = None.
Proof.
  intros [c [t [-> Hc]]] H4 H6. rewrite match_at_det. unfold det_at, alt_det.
  rewrite open_br_digit by exact Hc. rewrite H4, H6. reflexivity.
Qed.

(** No suffix of a masked IPv4 address [a.b.XXX.XXX] is a candidate. *)
Lemma no_hit_masked_ipv4 a b :
  dgroup is_digit 3 a -> dgroup is_digit 3 b -> no_hit (a ++ "." :: b ++ txt ".XXX.XXX").
Proof.
  intros Ha Hb.
  assert (Hfail6 : forall w rest, dgroup is_digit 3 w -> v6_det (w ++ "." :: rest) = None).
  { intros w rest Hw. unfold v6_det. cbn [iter_opt]. rewrite grp_sep_fail; [reflexivity| |reflexivity|reflexivity].
    apply hex_no_colon. destruct (dgroup_digit_hex _ _ Hw) as [_ [H _]]. exact H. }
  assert (Hstart : forall w rest, dgroup is_digit 3 w -> exists c t, w ++ rest = c :: t /\ is_hex c = true).
  { intros w rest Hw. destruct (dgroup_head _ _ _ Hw) as [c [t [-> Hc]]].
    exists c, (t ++ rest). split; [reflexivity|apply digit_hex; exact Hc]. }
  assert (Htail : no_hit (b ++ "." :: txt "XXX.XXX")).
  { apply no_hit_app; [simpl; repeat split; reflexivity|].
    intros pre suf E Hne. rewrite E in Hb. apply dgroup_suffix in Hb; [|exact Hne].
    apply match_at_none_hex.
    - exact (Hstart _ _ Hb).
    - unfold v4_det. cbn [iter_opt]. simpl app.
      rewrite grp_sep_app by (exact Hb || reflexivity). reflexivity.
    - exact (Hfail6 _ _ Hb). }
  apply no_hit_app.
  - split; [rewrite match_at_det; reflexivity|exact Htail].
  - intros pre suf E Hne. rewrite E in Ha. apply dgroup_suffix in Ha; [|exact Hne].
    apply match_at_none_hex.
    + exact (Hstart _ _ Ha).
    + unfold v4_det. cbn [iter_opt].
      rewrite grp_sep_app by (exact Ha || reflexivity). cbn [obind iter_opt].
      simpl app. rewrite grp_sep_app by (exact Hb || reflexivity). reflexivity.
    + exact (Hfail6 _ _ Ha).
Qed.

Lemma cnt_app x pre l : cnt x (pre ++ l) = cnt x pre + cnt x l.
Proof. unfold cnt. apply count_occ_app. Qed.

Lemma cnt_grp_sep p n x s r :
  grp_sep p n (ascii_eqb x) s = Some r -> S (cnt x r) <= cnt x s.
Proof.
  unfold grp_sep. destruct (grp p n s) as [[|d s']|] eqn:E; try discriminate.
  destruct (ascii_eqb x d) eqn:Hd; [|discriminate]. intros H. injection H as <-.
  destruct (grp_suffix _ _ _ _ E) as [c [pre [-> _]]].
  unfold ascii_eqb in Hd. destruct (ascii_dec x d); [subst|discriminate].
  change (c :: pre ++ d :: s') with ((c :: pre) ++ d :: s'). rewrite cnt_app.
  unfold cnt. rewrite (count_occ_cons_eq ascii_dec s' (eq_refl d)). lia.
Qed.

Lemma cnt_iter p n x k s r :
  iter_opt (grp_sep p n (ascii_eqb x)) k s = Some r -> k + cnt x r <= cnt x s.
Proof.
  revert s. induction k as [|k IH]; intros s H.
  - injection H as <-. lia.
  - simpl in H. destruct (grp_sep p n (ascii_eqb x) s) as [s1|] eqn:E; [|discriminate].
    apply cnt_grp_sep in E. specialize (IH _ H). lia.
Qed.

Lemma cnt_det_at s rest ip :
  det_at s = Some (rest, ip) -> 3 <= cnt "." s \/ 7 <= cnt ":" s.
Proof.
  unfold det_at. destruct (alt_det (open_br s)) as [r|] eqn:A; [|discriminate]. intros _.
  destruct (open_br_suffix s) as [pre Hpre].
  assert (Hle : forall x, cnt x (open_br s) <= cnt x s).
  { intros x. rewrite Hpre at 2. rewrite cnt_app. lia. }
  unfold alt_det, v4_det, v6_det in A.
  destruct (iter_opt (grp_sep is_digit 2 (ascii_eqb ".")) 3 (open_br s)) as [s1|] eqn:E4.
  - apply cnt_iter in E4. specialize (Hle "."). left. lia.
  - cbn [obind] in A.
    destruct (iter_opt (grp_sep is_hex 3 (ascii_eqb ":")) 7 (open_br s)) as [s2|] eqn:E6;
      [|discriminate].
    apply cnt_iter in E6. specialize (Hle ":"). right. lia.
Qed.

Lemma no_hit_cnt s : cnt "." s < 3 -> cnt ":" s < 7 -> no_hit s.
Proof.
  induction s as [|c s IH]; intros Hd Hc; [exact I|]. split.
  - rewrite match_at_det. destruct (det_at (c :: s)) as [[rest ip]|] eqn:D; [|reflexivity].
    apply cnt_det_at in D. lia.
  - assert (Hs : forall x, cnt x s <= cnt x (c :: s)).
    { intros x. change (c :: s) with ([c] ++ s). rewrite cnt_app. lia. }
    apply IH; [specialize (Hs "."); lia|specialize (Hs ":"); lia].
Qed.

Lemma cnt_hex x w :
  (x = "." \/ x = ":") -> Forall (fun c => is_hex c = true) w -> cnt x w = 0.
Proof.
  intros Hx Hw. induction Hw as [|c w Hc _ IH]; [reflexivity|].
  unfold cnt. rewrite count_occ_cons_neq; [exact IH|].
  intros ->. destruct (hex_not_sep x Hc) as [H1 [H2 _]].
  unfold ascii_eqb in H1, H2. destruct Hx as [->| ->].
  - destruct (ascii_dec "." "."); [discriminate|contradiction].
  - destruct (ascii_dec ":" ":"); [discriminate|contradiction].
Qed.

(** No suffix of a masked IPv6 address [g1:g2] is a candidate. *)
Lemma no_hit_masked_ipv6 g1 g2 :
  dgroup is_hex 4 g1 -> dgroup is_hex 4 g2 -> no_hit (g1 ++ ":" :: g2).
Proof.
  intros [_ [H1 _]] [_ [H2 _]].
  apply no_hit_cnt; rewrite cnt_app; unfold cnt at 2; simpl;
    fold (cnt "." g2) (cnt ":" g2).
  - rewrite !cnt_hex by (auto; fail). lia.
  - rewrite !cnt_hex by (auto; fail). lia.
Qed.

(** ** Lemmas: brackets around a candidate *)

Lemma segments_go_skipn s k : segments_go s k = segments (skipn k s).
Proof.
  revert k. induction s as [|c s IH]; intros k; [destruct k; reflexivity|].
  destruct k as [|k]; [reflexivity|]. simpl. apply IH.
Qed.

Lemma segments_cons c s :
  segments (c :: s)
  = match match_at (c :: s) with
    | Some m => Hit m :: segments (skipn (List.length (m_group m) - 1) s)
    | None => Plain c :: segments s
    end.
Proof.
  unfold segments at 1. simpl. destruct (match_at (c :: s)); [|reflexivity].
  rewrite segments_go_skipn. reflexivity.
Qed.

Lemma skipn_length_app (a b : text) : skipn (List.length a) (a ++ b) = b.
Proof. induction a as [|x a IH]; [reflexivity|]. exact IH. Qed.

(** Where a [Hit] segment comes from: a match of the text that follows the
    segments before it; when a [Plain c] precedes it, no match started at [c]. *)
Lemma segments_hit s pre m post :
  segments s = pre ++ Hit m :: post ->
  exists v, match_at (m_group m ++ v) = Some m /\ segments v = post /\
    (pre = [] -> s = m_group m ++ v) /\
    (forall pre' c, pre = pre' ++ [Plain c] -> match_at (c :: m_group m ++ v) = None).
Proof.
  revert s. induction pre as [|x pre IH]; intros s H.
  - destruct s as [|c s]; [discriminate H|]. rewrite segments_cons in H.
    destruct (match_at (c :: s)) as [m0|] eqn:M; [|discriminate H].
    injection H as -> Hpost.
    destruct (match_at_prefix _ _ M) as [Hne [rest Hs]].
    destruct (m_group m) as [|g0 g] eqn:G; [contradiction|].
    injection Hs as <- Hs. exists rest. split; [cbn [app]; rewrite <- Hs; exact M|]. split.
    + rewrite <- Hpost, Hs. simpl. rewrite Nat.sub_0_r, skipn_length_app. reflexivity.
    + split; [intros _; rewrite Hs; reflexivity|].
      intros pre' c' E. destruct pre'; discriminate E.
  - destruct s as [|c s]; [discriminate H|]. rewrite segments_cons in H.
    destruct (match_at (c :: s)) as [m0|] eqn:M.
    + injection H as <- H. destruct (IH _ H) as [v [Hm [Hp [_ Hlast]]]].
      exists v. split; [exact Hm|]. split; [exact Hp|]. split; [discriminate|].
      intros pre' c' E. destruct pre' as [|y pre'].
      * simpl in E. discriminate E.
      * injection E as _ E. exact (Hlast _ _ E).
    + injection H as <- H. destruct (IH _ H) as [v [Hm [Hp [Hpre Hlast]]]].
      exists v. split; [exact Hm|]. split; [exact Hp|]. split; [discriminate|].
      intros pre' c' E. destruct pre' as [|y pre'].
      * injection E as Ec E. subst c'. rewrite <- (Hpre E). exact M.
      * injection E as _ E. exact (Hlast _ _ E).
Qed.

Lemma segments_plain v c post : segments v = Plain c :: post -> exists v', v = c :: v'.
Proof.
  destruct v as [|c' v]; [discriminate|]. rewrite segments_cons.
  destruct (match_at (c' :: v)); intros H; injection H as H; [discriminate H|].
  subst. eauto.
Qed.

(** The anatomy of a match: an optional [\[], the [ip] group, an optional
    [\]]; each bracket is left out only when the text does not have it. *)
Lemma match_shape s m :
  match_at s = Some m ->
  exists ob cb rest,
    s = m_group m ++ rest /\ m_group m = ob ++ m_ip m ++ cb /\
    ((ob = [] /\ open_br s = s) \/ ob = ["["]) /\
    ((cb = [] /\ close_br rest = rest) \/ cb = ["]"]) /\
    Forall (fun c => ipchar c = true) (m_ip m) /\
    exists r, alt_det (open_br s) = Some r.
Proof.
  rewrite match_at_det. unfold det_at.
  destruct (alt_det (open_br s)) as [r|] eqn:A; [|discriminate].
  intros H. injection H as <-. cbn [m_group m_ip].
  destruct (alt_det_suffix _ _ A) as [c [pre [Hr Hall]]].
  change (c :: pre ++ r) with ((c :: pre) ++ r) in Hr.
  assert (Fip : firstn (List.length (open_br s) - List.length r) (open_br s) = c :: pre).
  { rewrite Hr. apply firstn_app_length. }
  rewrite Fip.
  assert (Hob : exists ob, s = ob ++ open_br s /\ ((ob = [] /\ open_br s = s) \/ ob = ["["])).
  { destruct s as [|x s]; [exists []; auto|]. simpl.
    destruct (ascii_eqb "[" x) eqn:E; [|exists []; auto].
    exists [x]. unfold ascii_eqb in E. destruct (ascii_dec "[" x); [subst|discriminate].
    auto. }
  assert (Hcb : exists cb, r = cb ++ close_br r /\
                  ((cb = [] /\ close_br (close_br r) = close_br r) \/ cb = ["]"])).
  { destruct r as [|y r']; [exists []; auto|]. simpl.
    destruct (ascii_eqb "]" y) eqn:E.
    - exists [y]. unfold ascii_eqb in E. destruct (ascii_dec "]" y); [subst|discriminate].
      auto.
    - exists []. simpl. rewrite E. auto. }
  destruct Hob as [ob [Hs Hob]]. destruct Hcb as [cb [Hr' Hcb]].
  assert (Hs' : s = (ob ++ (c :: pre) ++ cb) ++ close_br r).
  { rewrite Hs at 1. rewrite Hr. rewrite Hr' at 1. rewrite <- !app_assoc. reflexivity. }
  assert (F : firstn (List.length s - List.length (close_br r)) s = ob ++ (c :: pre) ++ cb).
  { rewrite Hs'. apply firstn_app_length. }
  exists ob, cb, (close_br r). rewrite F.
  split; [rewrite Hs' at 1; rewrite <- !app_assoc; reflexivity|]. split; [reflexivity|].
  split; [exact Hob|]. split; [exact Hcb|]. split; [exact Hall|].
  exists r. reflexivity.
Qed.

Lemma ipchar_nobracket c : ipchar c = true -> nobracket c.
Proof. intros H. split; intros ->; discriminate H. Qed.

Lemma Forall_split_on (P : ascii -> Prop) sep s :
  Forall P s -> Forall (Forall P) (split_on sep s).
Proof.
  intros Hs. induction Hs as [|c s Hc Hs IH]; [repeat constructor|]. simpl.
  destruct (ascii_eqb c sep); [constructor; [constructor|exact IH]|].
  destruct (split_on sep s) as [|w ws]; [repeat constructor; exact Hc|].
  inversion IH as [|? ? Hw Hws]; subst. constructor; [constructor; assumption|exact Hws].
Qed.

Lemma Forall_firstn' {A} (P : A -> Prop) n l : Forall P l -> Forall P (firstn n l).
Proof.
  intros Hl. revert n. induction Hl as [|x l Hx Hl IH]; intros [|n]; simpl;
    constructor; auto.
Qed.

Lemma Forall_repeat' {A} (P : A -> Prop) x n : P x -> Forall P (repeat x n).
Proof. intros Hx. induction n as [|n IH]; simpl; constructor; auto. Qed.

Lemma nobracket_XXX : Forall nobracket (txt "XXX").
Proof. repeat constructor; discriminate. Qed.

Lemma nobracket_XXXX : Forall nobracket (txt "XXXX").
Proof. repeat constructor; discriminate. Qed.

Lemma anonymize_ipv4_nobracket ip :
  Forall nobracket ip -> Forall nobracket (anonymize_ipv4 ip).
Proof.
  intros H. unfold anonymize_ipv4. apply Forall_join; [split; discriminate|].
  apply Forall_app. split.
  - apply Forall_firstn', Forall_split_on, H.
  - constructor; [apply nobracket_XXX|constructor; [apply nobracket_XXX|constructor]].
Qed.

Lemma anonymize_ipv6_nobracket ip :
  Forall nobracket ip -> Forall nobracket (anonymize_ipv6 ip).
Proof.
  intros H. unfold anonymize_ipv6. apply Forall_join; [split; discriminate|].
  apply Forall_app. split.
  - apply Forall_firstn', Forall_split_on, H.
  - apply Forall_repeat', nobracket_XXXX.
Qed.

Lemma Forall_nobracket_notin s : Forall nobracket s -> ~ In "[" s /\ ~ In "]" s.
Proof.
  intros H. rewrite Forall_forall in H.
  split; intros Hin; destruct (H _ Hin) as [H1 H2]; [apply H1|apply H2]; reflexivity.
Qed.

(** ** The claims *)

(** Claim C3: in Mask mode a non-excluded IPv4 candidate [a.b.c.d] (four
    groups of 1..3 digits, values not range-checked) is replaced by exactly
    [a.b.XXX.XXX]; on the text [a.b.c.d] alone, the whole output is
    [a.b.XXX.XXX]. *)
Theorem C3_ipv4_mask reader a b c d :
  ipv4_shape a b c d -> ~ In (ipv4_text a b c d) excluded_ips ->
  (forall m, m_ip m = ipv4_text a b c d ->
     replace_ip reader false m = Ok (a ++ "." :: b ++ txt ".XXX.XXX")) /\
  anonymize_ip_addresses (ipv4_text a b c d) (Ok reader) false
  = Ok (a ++ "." :: b ++ txt ".XXX.XXX").
Proof.
  intros Hs Hex. split.
  - intros m Hm. exact (replace_ip_mask_ipv4 reader m a b c d Hs Hex Hm).
  - rewrite anonymize_segments, (segments_whole _ _ (match_at_ipv4 a b c d Hs) eq_refl).
    simpl. rewrite app_nil_r. unfold replacement.
    rewrite (replace_ip_mask_ipv4 reader (mkMatch (ipv4_text a b c d) (ipv4_text a b c d))
               a b c d Hs Hex eq_refl). reflexivity.
Qed.

Lemma C3_ipv4_mask_witness :
  ipv4_shape (txt "198") (txt "51") (txt "100") (txt "23") /\
  ~ In (ipv4_text (txt "198") (txt "51") (txt "100") (txt "23")) excluded_ips /\
  anonymize_ip_addresses (txt "198.51.100.23") (Ok no_reader) false = Ok (txt "198.51.XXX.XXX").
Proof.
  assert (Hs : ipv4_shape (txt "198") (txt "51") (txt "100") (txt "23")).
  { unfold ipv4_shape, dgroup. simpl. repeat split; repeat constructor; discriminate. }
  assert (Hex : ~ In (ipv4_text (txt "198") (txt "51") (txt "100") (txt "23")) excluded_ips).
  { rewrite <- is_excluded_In. vm_compute. discriminate. }
  split; [exact Hs|]. split; [exact Hex|].
  exact (proj2 (C3_ipv4_mask no_reader _ _ _ _ Hs Hex)).
Defined.

(** Claim C4: a candidate whose [ip] group is literally (byte for byte) an
    entry of [excluded_ips] is emitted as the whole matched text, brackets
    included, whatever the mode and whatever the lookup would answer. *)
Theorem C4_excluded_unchanged reader cc m :
  In (m_ip m) excluded_ips -> replace_ip reader cc m = Ok (m_group m).
Proof.
  intros H. unfold replace_ip. apply is_excluded_In in H. rewrite H. reflexivity.
Qed.

Lemma C4_excluded_unchanged_witness :
  match_at (txt "[127.0.0.1]") = Some (mkMatch (txt "[127.0.0.1]") (txt "127.0.0.1")) /\
  In (txt "127.0.0.1") excluded_ips /\
  replace_ip us_reader true (mkMatch (txt "[127.0.0.1]") (txt "127.0.0.1"))
  = Ok (txt "[127.0.0.1]").
Proof.
  split; [vm_compute; reflexivity|]. split; [simpl; left; reflexivity|].
  apply (C4_excluded_unchanged us_reader true (mkMatch (txt "[127.0.0.1]") (txt "127.0.0.1"))).
  simpl. left. reflexivity.
Defined.

(** Claim C1 (defect): Mask mode on a non-excluded full-form IPv6 candidate
    [g1:...:g8] outputs only [g1:g2]. [8 - len(groups)] is 0 for the eight
    groups of a match, so none of the six [XXXX] groups is emitted. *)
Theorem C1_ipv6_mask_two_groups reader gs :
  ipv6_shape gs -> ~ In (ipv6_text gs) excluded_ips ->
  anonymize_ip_addresses (ipv6_text gs) (Ok reader) false
  = Ok (nth 0 gs [] ++ ":" :: nth 1 gs []).
Proof. exact (anonymize_ipv6_candidate reader gs). Qed.

Lemma C1_ipv6_mask_two_groups_witness :
  ipv6_shape (map txt ["2001"; "db8"; "0"; "0"; "0"; "0"; "0"; "1"]%string) /\
  ~ In (ipv6_text (map txt ["2001"; "db8"; "0"; "0"; "0"; "0"; "0"; "1"]%string)) excluded_ips /\
  anonymize_ip_addresses (txt "2001:db8:0:0:0:0:0:1") (Ok no_reader) false
  = Ok (txt "2001:db8").
Proof.
  assert (Hs : ipv6_shape (map txt ["2001"; "db8"; "0"; "0"; "0"; "0"; "0"; "1"]%string)).
  { split; [reflexivity|]. simpl.
    repeat constructor; simpl; try discriminate; try lia. }
  assert (Hex : ~ In (ipv6_text (map txt ["2001"; "db8"; "0"; "0"; "0"; "0"; "0"; "1"]%string))
                     excluded_ips).
  { rewrite <- is_excluded_In. vm_compute. discriminate. }
  split; [exact Hs|]. split; [exact Hex|].
  exact (C1_ipv6_mask_two_groups no_reader _ Hs Hex).
Defined.

(** Claim C2, as amended: in CountryCode mode, a non-excluded candidate
    whose lookup raises is emitted as the matched text unchanged (brackets
    included); the masked form is not used as a fallback. *)
Theorem C2_lookup_failure_keeps_match reader m e :
  ~ In (m_ip m) excluded_ips -> reader (m_ip m) = Err e ->
  replace_ip reader true m = Ok (m_group m).
Proof.
  intros Hex Hr. unfold replace_ip. destruct (is_excluded (m_ip m)) eqn:E.
  - apply is_excluded_In in E. contradiction.
  - rewrite Hr. reflexivity.
Qed.

Lemma C2_lookup_failure_keeps_match_witness :
  ~ In (txt "203.0.113.5") excluded_ips /\
  replace_ip no_reader true (mkMatch (txt "[203.0.113.5]") (txt "203.0.113.5"))
  = Ok (txt "[203.0.113.5]").
Proof.
  assert (Hex : ~ In (txt "203.0.113.5") excluded_ips).
  { rewrite <- is_excluded_In. vm_compute. discriminate. }
  split; [exact Hex|].
  exact (C2_lookup_failure_keeps_match no_reader
           (mkMatch (txt "[203.0.113.5]") (txt "203.0.113.5")) LookupError Hex eq_refl).
Defined.

(** Claim C2 fails: with a lookup that raises, CountryCode mode leaves
    [203.0.113.5] as it is, while its Mask-mode form is [203.0.XXX.XXX]. *)
Lemma C2_lookup_failure_cex :
  anonymize_ip_addresses (txt "203.0.113.5") (Ok no_reader) true = Ok (txt "203.0.113.5") /\
  anonymize_ip_addresses (txt "203.0.113.5") (Ok no_reader) false = Ok (txt "203.0.XXX.XXX").
Proof. split; vm_compute; reflexivity. Qed.

(** Claim C7: no per-candidate failure escapes [anonymize_ip_addresses]:
    for every lookup and every text the result is a text (never an
    exception), namely the segments in order with each candidate replaced
    by its own outcome, a raising lookup falling back to the matched text
    for that candidate alone. *)
Theorem C7_errors_contained reader cc s :
  anonymize_ip_addresses s (Ok reader) cc
  = Ok (List.concat (map (seg_out (candidate_outcome reader cc)) (segments s))).
Proof.
  rewrite anonymize_segments. do 2 f_equal. apply map_ext. intros [c|m]; [reflexivity|].
  unfold seg_out, replacement, replace_ip, candidate_outcome.
  destruct (is_excluded (m_ip m)); [reflexivity|].
  destruct cc; [destruct (reader (m_ip m)); reflexivity|].
  destruct (existsb (ascii_eqb ".") (m_ip m)); reflexivity.
Qed.

(** Claim C9: the text is the concatenation of its segments, and the output
    keeps every character outside a match as it is, in place, only the
    matches being replaced. *)
Theorem C9_outside_matches_preserved reader cc s :
  List.concat (map seg_text (segments s)) = s /\
  anonymize_ip_addresses s (Ok reader) cc
  = Ok (List.concat (map (seg_out (replacement reader cc)) (segments s))).
Proof. split; [apply segments_text|apply anonymize_segments]. Qed.

(** Claim C8 (defect): whenever writing the temporary file or moving it
    over the input raises, [main] logs one [Error] entry and returns
    normally: exit status 0, not a non-zero status. A failing write leaves
    the input file as it was; a move whose cross-file-system copy raises
    after [n] characters leaves only the first [n] characters of the
    anonymized text in the input file. *)
Theorem C8_output_failure_exit_zero cc env w0 content out :
  w_input w0 = Some content ->
  anonymize_ip_addresses content (e_db env) cc = Ok out ->
  (e_write env <> Written \/ e_move env <> Moved) ->
  fst (main cc env w0) = 0 /\
  w_log (snd (main cc env w0)) = w_log w0 ++ [Error] /\
  (e_write env <> Written -> w_input (snd (main cc env w0)) = Some content) /\
  (forall n, e_write env = Written -> e_move env = CopyWriteFails n ->
     w_input (snd (main cc env w0)) = Some (firstn n out)).
Proof.
  intros H A F. unfold main, read_input. rewrite H.
  unfold io_bind, io_lift. rewrite A. unfold write_temp, move_temp.
  destruct (e_write env) as [| |k] eqn:W;
    [destruct (e_move env) as [| |k|] eqn:Mv|..]; cbn;
    repeat split; intros; try congruence; try (rewrite H; reflexivity).
  exfalso. destruct F as [F|F]; apply F; reflexivity.
Qed.

Lemma C8_output_failure_exit_zero_witness :
  w_input (mkWorld (Some (txt "1.2.3.4")) None []) = Some (txt "1.2.3.4") /\
  anonymize_ip_addresses (txt "1.2.3.4") (e_db (mkEnv (Ok no_reader) Written (CopyWriteFails 4))) false
  = Ok (txt "1.2.XXX.XXX") /\
  fst (main false (mkEnv (Ok no_reader) Written (CopyWriteFails 4))
         (mkWorld (Some (txt "1.2.3.4")) None [])) = 0 /\
  w_input (snd (main false (mkEnv (Ok no_reader) Written (CopyWriteFails 4))
                 (mkWorld (Some (txt "1.2.3.4")) None []))) = Some (txt "1.2.").
Proof.
  assert (A : anonymize_ip_addresses (txt "1.2.3.4")
                (e_db (mkEnv (Ok no_reader) Written (CopyWriteFails 4))) false
              = Ok (txt "1.2.XXX.XXX")) by (vm_compute; reflexivity).
  assert (F : e_write (mkEnv (Ok no_reader) Written (CopyWriteFails 4)) <> Written \/
              e_move (mkEnv (Ok no_reader) Written (CopyWriteFails 4)) <> Moved)
    by (right; discriminate).
  destruct (C8_output_failure_exit_zero false (mkEnv (Ok no_reader) Written (CopyWriteFails 4))
              (mkWorld (Some (txt "1.2.3.4")) None []) _ _ eq_refl A F) as [E0 [_ [_ Hp]]].
  split; [reflexivity|]. split; [exact A|]. split; [exact E0|].
  exact (Hp 4 eq_refl eq_refl).
Defined.

(** Claim C5, as amended: candidate spans are not delimited by word
    boundaries. A digit followed by a non-excluded IPv4 text [a.b.c.d] whose
    first group has three digits stays plain text, [a.b.c.d] is matched
    right after it, and Mask mode outputs the digit followed by
    [a.b.XXX.XXX]. *)
Theorem C5_no_word_boundary reader x a b c d :
  is_digit x = true -> ipv4_shape a b c d -> List.length a = 3 ->
  ~ In (ipv4_text a b c d) excluded_ips ->
  segments (x :: ipv4_text a b c d)
  = [Plain x; Hit (mkMatch (ipv4_text a b c d) (ipv4_text a b c d))] /\
  anonymize_ip_addresses (x :: ipv4_text a b c d) (Ok reader) false
  = Ok (x :: a ++ "." :: b ++ txt ".XXX.XXX").
Proof.
  intros Hx Hs Hlen Hex.
  assert (Hseg : segments (x :: ipv4_text a b c d)
                 = [Plain x; Hit (mkMatch (ipv4_text a b c d) (ipv4_text a b c d))]).
  { unfold segments. cbn [segments_go]. rewrite match_at_digit_ipv4 by assumption.
    change (segments_go (ipv4_text a b c d) 0) with (segments (ipv4_text a b c d)).
    rewrite (segments_whole _ _ (match_at_ipv4 a b c d Hs) eq_refl). reflexivity. }
  split; [exact Hseg|].
  rewrite anonymize_segments, Hseg. simpl. rewrite app_nil_r. unfold replacement.
  rewrite (replace_ip_mask_ipv4 reader (mkMatch (ipv4_text a b c d) (ipv4_text a b c d))
             a b c d Hs Hex eq_refl). reflexivity.
Qed.

Lemma C5_no_word_boundary_witness :
  is_digit "1" = true /\ ipv4_shape (txt "234") (txt "1") (txt "1") (txt "1") /\
  List.length (txt "234") = 3 /\
  ~ In (ipv4_text (txt "234") (txt "1") (txt "1") (txt "1")) excluded_ips /\
  anonymize_ip_addresses (txt "1234.1.1.1") (Ok no_reader) false = Ok (txt "1234.1.XXX.XXX").
Proof.
  assert (Hs : ipv4_shape (txt "234") (txt "1") (txt "1") (txt "1")).
  { unfold ipv4_shape, dgroup. simpl. repeat split; repeat constructor; discriminate. }
  assert (Hex : ~ In (ipv4_text (txt "234") (txt "1") (txt "1") (txt "1")) excluded_ips).
  { rewrite <- is_excluded_In. vm_compute. discriminate. }
  split; [reflexivity|]. split; [exact Hs|]. split; [reflexivity|]. split; [exact Hex|].
  exact (proj2 (C5_no_word_boundary no_reader "1" _ _ _ _ eq_refl Hs eq_refl Hex)).
Defined.

(** Claim C5 fails: in [1234.1.1.1] the span [234.1.1.1] is matched right
    after the digit [1], inside the longer digit run [1234]. *)
Lemma C5_partial_run_cex :
  segments (txt "1234.1.1.1")
  = [Plain "1"; Hit (mkMatch (txt "234.1.1.1") (txt "234.1.1.1"))] /\
  anonymize_ip_addresses (txt "1234.1.1.1") (Ok no_reader) false = Ok (txt "1234.1.XXX.XXX").
Proof. split; vm_compute; reflexivity. Qed.

(** Claim C6: Mask mode is not idempotent. The Mask output of
    [1:2:3:4:5:6:7:8:9:a:b:c:d:e] is [1:2:9:a:b:c:d:e]: the kept groups
    [1:2] are joined to the groups after the first candidate. A second pass
    matches this already-masked text whole, starting with the kept [1:2],
    and masks it again to [1:2]. (A masked standalone address such as
    [a.b.XXX.XXX] is not re-matched: that is proved among the further properties.) *)
Theorem C6_mask_not_idempotent reader :
  exists t0 t1 t2,
    anonymize_ip_addresses t0 (Ok reader) false = Ok t1 /\
    segments t1 = [Hit (mkMatch t1 t1)] /\
    anonymize_ip_addresses t1 (Ok reader) false = Ok t2 /\ t2 <> t1.
Proof.
  exists (txt "1:2:3:4:5:6:7:8:9:a:b:c:d:e"), (txt "1:2:9:a:b:c:d:e"), (txt "1:2").
  split; [vm_compute; reflexivity|]. split; [vm_compute; reflexivity|].
  split; [vm_compute; reflexivity|]. discriminate.
Qed.

(** Claim C10: take any non-excluded candidate, i.e. a [Hit m] among the
    segments of the input. Its matched text is an optional [\[], the address
    and an optional [\]]. A [\[] right before it or a [\]] right after it is
    part of the match, so it is consumed. In Mask mode the replacement has no
    bracket at all. In CountryCode mode a successful lookup gives exactly
    [\[code\]]. *)
Theorem C10_brackets_consumed reader s pre m post :
  segments s = pre ++ Hit m :: post -> ~ In (m_ip m) excluded_ips ->
  (exists ob cb, m_group m = ob ++ m_ip m ++ cb /\
     (ob = [] \/ ob = ["["]) /\ (cb = [] \/ cb = ["]"]) /\
     (forall pre', pre = pre' ++ [Plain "["] -> ob = ["["]) /\
     (forall post', post = Plain "]" :: post' -> cb = ["]"])) /\
  (exists out, replace_ip reader false m = Ok out /\ ~ In "[" out /\ ~ In "]" out) /\
  (forall code, reader (m_ip m) = Ok code ->
     replace_ip reader true m = Ok ("[" :: code ++ ["]"])).
Proof.
  intros Hseg Hex.
  destruct (segments_hit _ _ _ _ Hseg) as [v [Hm [Hp [_ Hlast]]]].
  destruct (match_shape _ _ Hm) as [ob [cb [rest [Hs [Hg [Hob [Hcb [Hip [r A]]]]]]]]].
  apply app_inv_head in Hs. subst rest.
  assert (Hnex : is_excluded (m_ip m) = false).
  { destruct (is_excluded (m_ip m)) eqn:E; [|reflexivity].
    apply is_excluded_In in E. contradiction. }
  split; [|split].
  - exists ob, cb. split; [exact Hg|].
    split; [destruct Hob as [[-> _]| ->]; auto|].
    split; [destruct Hcb as [[-> _]| ->]; auto|]. split.
    + intros pre' E. specialize (Hlast _ _ E).
      destruct Hob as [[_ Hopen]| ->]; [exfalso|reflexivity].
      rewrite match_at_det in Hlast. unfold det_at in Hlast.
      change (open_br ("[" :: m_group m ++ v)) with (m_group m ++ v) in Hlast.
      rewrite Hopen in A. rewrite A in Hlast. discriminate Hlast.
    + intros post' E. rewrite E in Hp. destruct (segments_plain _ _ _ Hp) as [v' ->].
      destruct Hcb as [[_ Hclose]| ->]; [exfalso|reflexivity].
      change (close_br ("]" :: v')) with v' in Hclose.
      apply (f_equal (@List.length ascii)) in Hclose. simpl in Hclose. lia.
  - unfold replace_ip. rewrite Hnex. cbn [try_except].
    assert (Hnb : Forall nobracket (m_ip m)).
    { eapply Forall_impl; [|exact Hip]. exact ipchar_nobracket. }
    destruct (existsb (ascii_eqb ".") (m_ip m)); eexists; (split; [reflexivity|]);
      apply Forall_nobracket_notin.
    + apply anonymize_ipv4_nobracket, Hnb.
    + apply anonymize_ipv6_nobracket, Hnb.
  - intros code Hc. unfold replace_ip. rewrite Hnex. cbn zeta. rewrite Hc. reflexivity.
Qed.

Lemma C10_brackets_consumed_witness :
  segments (txt "x [1.2.3.4] y")
  = [Plain "x"; Plain " "] ++ Hit (mkMatch (txt "[1.2.3.4]") (txt "1.2.3.4"))
      :: [Plain " "; Plain "y"] /\
  ~ In (txt "1.2.3.4") excluded_ips /\
  replace_ip us_reader true (mkMatch (txt "[1.2.3.4]") (txt "1.2.3.4")) = Ok (txt "[US]").
Proof.
  assert (Hseg : segments (txt "x [1.2.3.4] y")
    = [Plain "x"; Plain " "] ++ Hit (mkMatch (txt "[1.2.3.4]") (txt "1.2.3.4"))
        :: [Plain " "; Plain "y"]) by (vm_compute; reflexivity).
  assert (Hex : ~ In (txt "1.2.3.4") excluded_ips).
  { rewrite <- is_excluded_In. vm_compute. discriminate. }
  split; [exact Hseg|]. split; [exact Hex|].
  exact (proj2 (proj2 (C10_brackets_consumed us_reader _ _ _ _ Hseg Hex)) (txt "US") eq_refl).
Defined.

(** ** Further properties of the code *)

(** *** Lemmas: [split] and [join] *)

Lemma split_on_not_nil sep s : split_on sep s <> [].
Proof.
  destruct s as [|c s]; [discriminate|]. simpl.
  destruct (ascii_eqb c sep); [discriminate|]. destruct (split_on sep s); discriminate.
Qed.

Lemma split_on_pieces sep s :
  Forall (Forall (fun c => ascii_eqb c sep = false)) (split_on sep s).
Proof.
  induction s as [|c s IH]; [repeat constructor|]. simpl.
  destruct (ascii_eqb c sep) eqn:E; [constructor; [constructor|exact IH]|].
  destruct (split_on sep s) as [|w ws]; [repeat constructor; exact E|].
  inversion IH as [|? ? Hw Hws]; subst. constructor; [constructor; assumption|exact Hws].
Qed.

Lemma length_split_on sep s : List.length (split_on sep s) = S (cnt sep s).
Proof.
  induction s as [|c s IH]; [reflexivity|]. simpl. unfold cnt in *. simpl.
  unfold ascii_eqb. destruct (ascii_dec c sep).
  - simpl. rewrite IH. reflexivity.
  - pose proof (split_on_not_nil sep s) as Hne.
    destruct (split_on sep s) as [|w ws]; [contradiction|]. exact IH.
Qed.

(** [s.split(sep)] undoes [sep.join(ws)] when no piece contains [sep]. *)
Lemma split_join sep ws :
  ws <> [] -> Forall (Forall (fun c => ascii_eqb c sep = false)) ws ->
  split_on sep (join sep ws) = ws.
Proof.
  intros Hne Hws. induction Hws as [|w ws Hw Hws IH]; [contradiction|].
  destruct ws as [|w' ws'].
  - apply split_on_nosep, Hw.
  - change (join sep (w :: w' :: ws')) with (w ++ sep :: join sep (w' :: ws')).
    rewrite split_on_app by exact Hw. rewrite IH by discriminate. reflexivity.
Qed.

Lemma firstn_not_nil {A} n (l : list A) : n <> 0 -> l <> [] -> firstn n l <> [].
Proof. intros Hn Hl. destruct n, l; simpl; congruence. Qed.

(** *** [anonymize_ipv4] and [anonymize_ipv6] on any string *)

(** [anonymize_ipv4] on any string: splitting its output on dots gives the
    first two dot-separated groups of the input followed by two [XXX]
    groups, so the output has [min(2, n) + 2] groups for an input of [n]
    groups (three groups for an input without a dot). *)
Theorem X_anonymize_ipv4_groups ip :
  split_on "." (anonymize_ipv4 ip) = firstn 2 (split_on "." ip) ++ [txt "XXX"; txt "XXX"] /\
  List.length (split_on "." (anonymize_ipv4 ip)) = Nat.min 2 (S (cnt "." ip)) + 2.
Proof.
  assert (H : split_on "." (anonymize_ipv4 ip)
              = firstn 2 (split_on "." ip) ++ [txt "XXX"; txt "XXX"]).
  { unfold anonymize_ipv4. apply split_join.
    - destruct (firstn 2 (split_on "." ip)); discriminate.
    - apply Forall_app. split.
      + apply Forall_firstn', split_on_pieces.
      + repeat constructor. }
  split; [exact H|]. rewrite H, length_app, length_firstn, length_split_on. reflexivity.
Qed.

(** [anonymize_ipv6] on any string of [n] colon-separated groups: splitting
    its output on colons gives the first two groups of the input followed
    by [8 - n] groups [XXXX] (none when [n >= 8]), so the output has
    [min(2, n) + (8 - n)] groups: eight only when [n <= 2]. *)
Theorem X_anonymize_ipv6_groups ip :
  split_on ":" (anonymize_ipv6 ip)
  = firstn 2 (split_on ":" ip) ++ repeat (txt "XXXX") (8 - S (cnt ":" ip)) /\
  List.length (split_on ":" (anonymize_ipv6 ip))
  = Nat.min 2 (S (cnt ":" ip)) + (8 - S (cnt ":" ip)).
Proof.
  assert (H : split_on ":" (anonymize_ipv6 ip)
              = firstn 2 (split_on ":" ip) ++ repeat (txt "XXXX") (8 - S (cnt ":" ip))).
  { unfold anonymize_ipv6. rewrite length_split_on. apply split_join.
    - pose proof (firstn_not_nil 2 _ ltac:(discriminate) (split_on_not_nil ":" ip)) as Hf.
      destruct (firstn 2 (split_on ":" ip)); [contradiction|discriminate].
    - apply Forall_app. split.
      + apply Forall_firstn', split_on_pieces.
      + apply Forall_repeat'. repeat constructor. }
  split; [exact H|].
  rewrite H, length_app, length_firstn, repeat_length, length_split_on. reflexivity.
Qed.

(** *** Texts without a candidate *)

(** A text with fewer than three dots and fewer than seven colons (the empty
    text among them) holds no candidate (its segmentation is all plain
    characters) and comes back unchanged, in both
    modes and whatever the lookup answers. *)
Theorem X_few_separators_unchanged reader cc s :
  cnt "." s < 3 -> cnt ":" s < 7 ->
  segments s = map Plain s /\ anonymize_ip_addresses s (Ok reader) cc = Ok s.
Proof.
  intros Hd Hc. pose proof (no_hit_cnt s Hd Hc) as N.
  split; [apply segments_no_hit, N|apply anonymize_no_hit, N].
Qed.

Lemma X_few_separators_unchanged_witness :
  cnt "." (txt "GET /index.html 10:42") < 3 /\ cnt ":" (txt "GET /index.html 10:42") < 7 /\
  segments (txt "GET /index.html 10:42") = map Plain (txt "GET /index.html 10:42") /\
  anonymize_ip_addresses (txt "GET /index.html 10:42") (Ok us_reader) true
  = Ok (txt "GET /index.html 10:42").
Proof.
  assert (Hd : cnt "." (txt "GET /index.html 10:42") < 3) by (vm_compute; lia).
  assert (Hc : cnt ":" (txt "GET /index.html 10:42") < 7) by (vm_compute; lia).
  split; [exact Hd|]. split; [exact Hc|].
  exact (X_few_separators_unchanged us_reader true _ Hd Hc).
Defined.

(** *** Lemmas: the scanner stops at a separator *)

Section Separator.
Variable c : ascii.
Variable t : text.
Hypothesis Hip : ipchar c = false.
Hypothesis Hob : ascii_eqb "[" c = false.
Hypothesis Hcb : ascii_eqb "]" c = false.

Lemma sep_digit : is_digit c = false.
Proof.
  destruct (is_digit c) eqn:E; [|reflexivity].
  unfold ipchar in Hip. rewrite (digit_hex _ E) in Hip. discriminate.
Qed.

Lemma sep_hex : is_hex c = false.
Proof. unfold ipchar in Hip. destruct (is_hex c); [discriminate|reflexivity]. Qed.

Lemma sep_dot : ascii_eqb "." c = false.
Proof.
  unfold ipchar in Hip. apply orb_false_iff in Hip as [H1 _].
  apply orb_false_iff in H1 as [_ H]. exact H.
Qed.

Lemma sep_colon : ascii_eqb ":" c = false.
Proof. unfold ipchar in Hip. apply orb_false_iff in Hip as [_ H]. exact H. Qed.

Lemma dropmax_sep p n x : p c = false -> dropmax p n (x ++ c :: t) = dropmax p n x ++ c :: t.
Proof.
  intros Hp. revert n. induction x as [|y x IH]; intros [|n]; simpl; try reflexivity.
  - rewrite Hp. reflexivity.
  - destruct (p y); [apply IH|reflexivity].
Qed.

Lemma grp_sep_sep_grp p n x : p c = false -> grp p n (x ++ c :: t) = ext_by c t (grp p n x).
Proof.
  intros Hp. destruct x as [|y x]; simpl; [rewrite Hp; reflexivity|].
  destruct (p y); [|reflexivity]. simpl. rewrite dropmax_sep by exact Hp. reflexivity.
Qed.

Lemma grp_sep_sep p n q x :
  p c = false -> q c = false -> grp_sep p n q (x ++ c :: t) = ext_by c t (grp_sep p n q x).
Proof.
  intros Hp Hq. unfold grp_sep. rewrite grp_sep_sep_grp by exact Hp.
  destruct (grp p n x) as [[|d r]|]; simpl;
    [rewrite Hq; reflexivity|destruct (q d); reflexivity|reflexivity].
Qed.

Lemma iter_opt_sep f n x :
  (forall y, f (y ++ c :: t) = ext_by c t (f y)) -> iter_opt f n (x ++ c :: t) = ext_by c t (iter_opt f n x).
Proof.
  intros Hf. revert x. induction n as [|n IH]; intros x; [reflexivity|]. simpl.
  rewrite Hf. destruct (f x) as [y|]; [apply IH|reflexivity].
Qed.

Lemma v4_det_sep x : v4_det (x ++ c :: t) = ext_by c t (v4_det x).
Proof.
  unfold v4_det. rewrite iter_opt_sep by
    (intros y; apply grp_sep_sep; [exact sep_digit|exact sep_dot]).
  destruct (iter_opt _ 3 x) as [y|]; [|reflexivity]. simpl.
  apply grp_sep_sep_grp, sep_digit.
Qed.

Lemma v6_det_sep x : v6_det (x ++ c :: t) = ext_by c t (v6_det x).
Proof.
  unfold v6_det. rewrite iter_opt_sep by
    (intros y; apply grp_sep_sep; [exact sep_hex|exact sep_colon]).
  destruct (iter_opt _ 7 x) as [y|]; [|reflexivity]. simpl.
  apply grp_sep_sep_grp, sep_hex.
Qed.

Lemma alt_det_sep x : alt_det (x ++ c :: t) = ext_by c t (alt_det x).
Proof.
  unfold alt_det. rewrite v4_det_sep. destruct (v4_det x); [reflexivity|].
  apply v6_det_sep.
Qed.

Lemma open_br_sep x : open_br (x ++ c :: t) = open_br x ++ c :: t.
Proof. destruct x as [|y x]; simpl; [rewrite Hob|destruct (ascii_eqb "[" y)]; reflexivity. Qed.

Lemma close_br_sep x : close_br (x ++ c :: t) = close_br x ++ c :: t.
Proof. destruct x as [|y x]; simpl; [rewrite Hcb|destruct (ascii_eqb "]" y)]; reflexivity. Qed.

Lemma det_at_suffix x rest ip : det_at x = Some (rest, ip) -> exists p, x = p ++ rest.
Proof.
  unfold det_at. destruct (alt_det (open_br x)) as [r|] eqn:A; [|discriminate].
  intros H. injection H as <- _.
  destruct (open_br_suffix x) as [p1 H1]. destruct (alt_det_suffix _ _ A) as [c0 [p2 [H2 _]]].
  destruct (close_br_suffix r) as [p3 H3].
  exists (p1 ++ c0 :: p2 ++ p3). rewrite H1 at 1. rewrite H2, H3 at 1.
  rewrite <- !app_assoc. simpl. rewrite <- !app_assoc. reflexivity.
Qed.

Lemma firstn_sep (p rest : text) :
  firstn (List.length ((p ++ rest) ++ c :: t) - List.length (rest ++ c :: t)) ((p ++ rest) ++ c :: t)
  = firstn (List.length (p ++ rest) - List.length rest) (p ++ rest).
Proof.
  rewrite <- app_assoc, !firstn_app_length. reflexivity.
Qed.

Lemma det_at_sep x :
  det_at (x ++ c :: t)
  = match det_at x with Some (rest, ip) => Some (rest ++ c :: t, ip) | None => None end.
Proof.
  destruct (det_at x) as [[rest ip]|] eqn:D.
  - unfold det_at in *. rewrite open_br_sep, alt_det_sep.
    destruct (alt_det (open_br x)) as [r|] eqn:A; [|discriminate].
    injection D as <- <-. simpl. rewrite close_br_sep.
    destruct (alt_det_suffix _ _ A) as [c0 [p [Hr _]]].
    change (c0 :: p ++ r) with ((c0 :: p) ++ r) in Hr. rewrite Hr.
    rewrite firstn_sep. reflexivity.
  - unfold det_at in *. rewrite open_br_sep, alt_det_sep.
    destruct (alt_det (open_br x)); [discriminate|reflexivity].
Qed.

Lemma match_at_sep x : match_at (x ++ c :: t) = match_at x.
Proof.
  rewrite !match_at_det, det_at_sep.
  destruct (det_at x) as [[rest ip]|] eqn:D; [|reflexivity].
  destruct (det_at_suffix _ _ _ D) as [p ->]. rewrite firstn_sep. reflexivity.
Qed.

Lemma segments_go_sep x k :
  k <= List.length x ->
  segments_go (x ++ c :: t) k = segments_go x k ++ Plain c :: segments t.
Proof.
  revert k. induction x as [|y x IH]; intros k Hk.
  - destruct k; [|simpl in Hk; lia]. simpl.
    rewrite <- (app_nil_l (c :: t)), match_at_sep. reflexivity.
  - destruct k as [|k]; [|simpl in *; apply IH; lia].
    change ((y :: x) ++ c :: t) with (y :: x ++ c :: t). simpl.
    change (y :: x ++ c :: t) with ((y :: x) ++ c :: t). rewrite match_at_sep.
    destruct (match_at (y :: x)) as [m|] eqn:M; simpl; rewrite IH; try reflexivity; [|lia].
    destruct (match_at_prefix _ _ M) as [Hne [rest Hs]].
    apply (f_equal (@List.length ascii)) in Hs. rewrite length_app in Hs. simpl in Hs. lia.
Qed.

End Separator.

(** *** Splitting the text at a separator *)

(** A character that is no hex digit, dot, colon or bracket (a space, a
    newline, ...) can never be part of a match, and no match reaches across
    it: anonymizing [x c t] gives the anonymized [x], then [c], then the
    anonymized [t]. A log file is thus transformed line by line, word by
    word. *)
Theorem X_anonymize_split_at_separator reader cc x c t :
  ipchar c = false -> ascii_eqb "[" c = false -> ascii_eqb "]" c = false ->
  anonymize_ip_addresses (x ++ c :: t) (Ok reader) cc
  = (a <- anonymize_ip_addresses x (Ok reader) cc ;;
     b <- anonymize_ip_addresses t (Ok reader) cc ;;
     Ok (a ++ c :: b)).
Proof.
  intros H1 H2 H3. rewrite !anonymize_segments. unfold segments.
  rewrite segments_go_sep by (assumption || lia).
  simpl. rewrite map_app, concat_app. reflexivity.
Qed.

Lemma X_anonymize_split_at_separator_witness :
  ipchar " " = false /\ ascii_eqb "[" " " = false /\ ascii_eqb "]" " " = false /\
  anonymize_ip_addresses (txt "10.0.0.1 [10.0.0.2]") (Ok no_reader) false
  = Ok (txt "10.0.XXX.XXX 10.0.XXX.XXX").
Proof.
  split; [reflexivity|]. split; [reflexivity|]. split; [reflexivity|].
  change (txt "10.0.0.1 [10.0.0.2]") with (txt "10.0.0.1" ++ " " :: txt "[10.0.0.2]").
  rewrite (X_anonymize_split_at_separator no_reader false _ " " _ eq_refl eq_refl eq_refl).
  vm_compute. reflexivity.
Defined.

(** *** The exclusion list and the lookup *)

Lemma excluded_ips_matched :
  forallb (fun e => match match_at e with
                    | Some m => text_eqb (m_group m) e && text_eqb (m_ip m) e
                    | None => false
                    end) excluded_ips = true.
Proof. vm_compute. reflexivity. Qed.

(** Every entry of [excluded_ips] is a candidate as it stands (the scanner
    matches it whole, so the entry can take effect), and a text made of one
    entry comes back unchanged in both modes, whatever the lookup answers. *)
Theorem X_excluded_entries_effective reader cc :
  Forall (fun e => match_at e = Some (mkMatch e e) /\
                   anonymize_ip_addresses e (Ok reader) cc = Ok e) excluded_ips.
Proof.
  apply Forall_forall. intros e He.
  pose proof excluded_ips_matched as H. rewrite forallb_forall in H. specialize (H e He).
  assert (M : match_at e = Some (mkMatch e e)).
  { destruct (match_at e) as [[g ip]|]; [|discriminate].
    apply andb_true_iff in H as [Hg Hi]. apply text_eqb_eq in Hg, Hi. simpl in *.
    subst. reflexivity. }
  split; [exact M|]. exact (anonymize_excluded_candidate reader cc e M He).
Qed.

(** Mask mode never consults the lookup: its output is the same whatever
    the GeoLite2 reader answers. *)
Theorem X_mask_ignores_lookup reader1 reader2 s :
  anonymize_ip_addresses s (Ok reader1) false = anonymize_ip_addresses s (Ok reader2) false.
Proof.
  rewrite !anonymize_segments. do 2 apply f_equal. apply map_ext. intros [c|m]; [reflexivity|].
  unfold seg_out, replacement, replace_ip. reflexivity.
Qed.

(** CountryCode mode with a lookup that raises for every address (an empty
    or unrelated database) changes nothing: every candidate falls back to
    its matched text, so the output is the input. *)
Theorem X_cc_failing_lookup_identity reader s :
  (forall ip, exists e, reader ip = Err e) ->
  anonymize_ip_addresses s (Ok reader) true = Ok s.
Proof.
  intros Hr. rewrite anonymize_segments. f_equal.
  rewrite <- (segments_text s) at 2. f_equal. apply map_ext. intros [c|m]; [reflexivity|].
  unfold seg_out, seg_text, replacement, replace_ip.
  destruct (is_excluded (m_ip m)); [reflexivity|].
  destruct (Hr (m_ip m)) as [e ->]. reflexivity.
Qed.

Lemma X_cc_failing_lookup_identity_witness :
  (forall ip, exists e, no_reader ip = Err e) /\
  anonymize_ip_addresses (txt "from [192.0.2.7] to 2001:db8:1:2:3:4:5:6") (Ok no_reader) true
  = Ok (txt "from [192.0.2.7] to 2001:db8:1:2:3:4:5:6").
Proof.
  assert (Hr : forall ip, exists e, no_reader ip = Err e) by (intros ip; exists LookupError; reflexivity).
  split; [exact Hr|]. exact (X_cc_failing_lookup_identity no_reader _ Hr).
Defined.

(** *** Lemmas: what the scanner accepts *)

Lemma dropmax_bound p n s :
  exists pre, s = pre ++ dropmax p n s /\ Forall (fun c => p c = true) pre /\
              List.length pre <= n.
Proof.
  revert s. induction n as [|n IH]; intros s; [exists []; simpl; auto|].
  destruct s as [|c s]; [exists []; simpl; repeat split; auto; lia|]. simpl.
  destruct (p c) eqn:E; [|exists []; simpl; repeat split; auto; lia].
  destruct (IH s) as [pre [Hs [Hall Hlen]]]. exists (c :: pre).
  simpl. rewrite <- Hs. repeat split; auto. lia.
Qed.

Lemma grp_shape p n s r :
  grp p n s = Some r -> exists w, s = w ++ r /\ dgroup p (S n) w.
Proof.
  unfold grp. destruct s as [|c s]; [discriminate|].
  destruct (p c) eqn:E; [|discriminate]. intros H. injection H as <-.
  destruct (dropmax_bound p n s) as [pre [Hs [Hall Hlen]]].
  exists (c :: pre). simpl. rewrite <- Hs. split; [reflexivity|].
  split; [discriminate|]. split; [constructor; assumption|simpl; lia].
Qed.

Lemma grp_sep_shape p n x s r :
  grp_sep p n (ascii_eqb x) s = Some r -> exists w, s = w ++ x :: r /\ dgroup p (S n) w.
Proof.
  unfold grp_sep. destruct (grp p n s) as [[|d s']|] eqn:E; try discriminate.
  destruct (ascii_eqb x d) eqn:Hd; [|discriminate]. intros H. injection H as <-.
  unfold ascii_eqb in Hd. destruct (ascii_dec x d); [subst|discriminate].
  destruct (grp_shape _ _ _ _ E) as [w [Hs Hw]]. exists w. auto.
Qed.

Lemma iter_shape p n x k s r :
  iter_opt (grp_sep p n (ascii_eqb x)) k s = Some r ->
  exists ws, List.length ws = k /\ Forall (dgroup p (S n)) ws /\
             s = List.concat (map (fun w => w ++ [x]) ws) ++ r.
Proof.
  revert s. induction k as [|k IH]; intros s H.
  - injection H as <-. exists []. auto.
  - simpl in H. destruct (grp_sep p n (ascii_eqb x) s) as [s1|] eqn:E; [|discriminate].
    destruct (grp_sep_shape _ _ _ _ _ E) as [w [Hs Hw]].
    destruct (IH _ H) as [ws [Hlen [Hall Hs1]]].
    exists (w :: ws). split; [simpl; lia|]. split; [constructor; assumption|].
    rewrite Hs, Hs1. simpl. rewrite <- !app_assoc. reflexivity.
Qed.

Lemma join_snoc x ws g :
  join x (ws ++ [g]) = List.concat (map (fun w => w ++ [x]) ws) ++ g.
Proof.
  induction ws as [|w ws IH]; [reflexivity|].
  change ((w :: ws) ++ [g]) with (w :: (ws ++ [g])).
  destruct (ws ++ [g]) as [|w' ws'] eqn:E; [destruct ws; discriminate|].
  change (join x (w :: w' :: ws')) with (w ++ x :: join x (w' :: ws')).
  rewrite IH. simpl. rewrite <- !app_assoc. reflexivity.
Qed.

Lemma v4_shape s r :
  v4_det s = Some r -> exists a b c d, ipv4_shape a b c d /\ s = ipv4_text a b c d ++ r.
Proof.
  unfold v4_det. destruct (iter_opt _ 3 s) as [s1|] eqn:E; [|discriminate]. cbn [obind].
  intros G. destruct (iter_shape _ _ _ _ _ _ E) as [ws [Hlen [Hall Hs]]].
  destruct ws as [|a [|b [|c [|? ?]]]]; try discriminate.
  destruct (grp_shape _ _ _ _ G) as [d [Hs1 Hd]].
  inversion Hall as [|? ? Ha Hall2]; subst. inversion Hall2 as [|? ? Hb Hall3]; subst.
  inversion Hall3 as [|? ? Hc _]; subst.
  exists a, b, c, d. split; [split; [exact Ha|split; [exact Hb|split; [exact Hc|exact Hd]]]|].
  change (ipv4_text a b c d) with (join "." ([a; b; c] ++ [d])).
  rewrite join_snoc, <- app_assoc. subst. reflexivity.
Qed.

Lemma v6_shape s r :
  v6_det s = Some r -> exists gs, ipv6_shape gs /\ s = ipv6_text gs ++ r.
Proof.
  unfold v6_det. destruct (iter_opt _ 7 s) as [s1|] eqn:E; [|discriminate]. cbn [obind].
  intros G. destruct (iter_shape _ _ _ _ _ _ E) as [ws [Hlen [Hall Hs]]].
  destruct (grp_shape _ _ _ _ G) as [g [Hs1 Hg]].
  exists (ws ++ [g]). split.
  - split; [rewrite length_app, Hlen; reflexivity|].
    apply Forall_app. split; [exact Hall|constructor; [exact Hg|constructor]].
  - unfold ipv6_text. rewrite join_snoc, <- app_assoc, <- Hs1. exact Hs.
Qed.

Lemma match_at_ip s m :
  match_at s = Some m -> exists r, alt_det (open_br s) = Some r /\ open_br s = m_ip m ++ r.
Proof.
  rewrite match_at_det. unfold det_at.
  destruct (alt_det (open_br s)) as [r|] eqn:A; [|discriminate].
  intros H. injection H as <-. exists r. split; [reflexivity|]. simpl.
  destruct (alt_det_suffix _ _ A) as [c [pre [Hr _]]].
  change (c :: pre ++ r) with ((c :: pre) ++ r) in Hr. rewrite Hr, firstn_app_length.
  reflexivity.
Qed.

Lemma match_ip_shape s m :
  match_at s = Some m ->
  (exists a b c d, ipv4_shape a b c d /\ m_ip m = ipv4_text a b c d) \/
  (exists gs, ipv6_shape gs /\ m_ip m = ipv6_text gs).
Proof.
  intros M. destruct (match_at_ip _ _ M) as [r [A Hs]].
  unfold alt_det in A. destruct (v4_det (open_br s)) as [r4|] eqn:E4.
  - injection A as ->. left. destruct (v4_shape _ _ E4) as [a [b [c [d [Hsh Hs4]]]]].
    exists a, b, c, d. split; [exact Hsh|].
    rewrite Hs in Hs4. apply app_inv_tail in Hs4. exact Hs4.
  - right. destruct (v6_shape _ _ A) as [gs [Hsh Hs6]].
    exists gs. split; [exact Hsh|].
    rewrite Hs in Hs6. apply app_inv_tail in Hs6. exact Hs6.
Qed.


(** *** What a candidate is *)

(** Every candidate [re.sub] hands to [replace_ip], anywhere in any text, is
    an optional [\[], then the [ip] group, then an optional [\]]; the [ip]
    group is four dot-separated groups of 1..3 decimal digits or eight
    colon-separated groups of 1..4 hex digits (no compressed IPv6 form). *)
Theorem X_candidate_shape s pre m post :
  segments s = pre ++ Hit m :: post ->
  (exists ob cb, m_group m = ob ++ m_ip m ++ cb /\
     (ob = [] \/ ob = ["["]) /\ (cb = [] \/ cb = ["]"])) /\
  ((exists a b c d, ipv4_shape a b c d /\ m_ip m = ipv4_text a b c d) \/
   (exists gs, ipv6_shape gs /\ m_ip m = ipv6_text gs)).
Proof.
  intros Hseg. destruct (segments_hit _ _ _ _ Hseg) as [v [Hm _]]. split.
  - destruct (match_shape _ _ Hm) as [ob [cb [rest [_ [Hg [Hob [Hcb _]]]]]]].
    exists ob, cb. split; [exact Hg|].
    split; [destruct Hob as [[H _]|H]|destruct Hcb as [[H _]|H]]; auto.
  - exact (match_ip_shape _ _ Hm).
Qed.

Lemma X_candidate_shape_witness :
  segments (txt "a=[fe80:0:0:0:0:0:0:1]")
  = [Plain "a"; Plain "="] ++
    Hit (mkMatch (txt "[fe80:0:0:0:0:0:0:1]") (txt "fe80:0:0:0:0:0:0:1")) :: [] /\
  exists gs, ipv6_shape gs /\ txt "fe80:0:0:0:0:0:0:1" = ipv6_text gs.
Proof.
  assert (Hseg : segments (txt "a=[fe80:0:0:0:0:0:0:1]")
    = [Plain "a"; Plain "="] ++
      Hit (mkMatch (txt "[fe80:0:0:0:0:0:0:1]") (txt "fe80:0:0:0:0:0:0:1")) :: [])
    by (vm_compute; reflexivity).
  split; [exact Hseg|].
  destruct (proj2 (X_candidate_shape _ _ _ _ Hseg))
    as [[a [b [c [d [_ E]]]]]|H]; [|exact H].
  exfalso. pose proof (ipv4_has_dot a b c d) as Hd.
  simpl in E. rewrite <- E in Hd. vm_compute in Hd. discriminate Hd.
Defined.



(** *** [main] *)

(** When the GeoLite2 database cannot be opened (in either mode, since the
    reader is opened before any candidate is seen), [main] logs one [Error]
    entry and exits with status 0; no temporary file is created and the
    input file keeps its contents. *)
Theorem X_main_database_failure cc env w0 content e :
  w_input w0 = Some content -> e_db env = Err e ->
  main cc env w0 = (0, mkWorld (Some content) (w_temp w0) (w_log w0 ++ [Error])).
Proof.
  intros H Hdb. unfold main, read_input. rewrite H.
  unfold anonymize_ip_addresses. rewrite Hdb. simpl. rewrite H. reflexivity.
Qed.

Lemma X_main_database_failure_witness :
  w_input (mkWorld (Some (txt "1.2.3.4")) None []) = Some (txt "1.2.3.4") /\
  e_db (mkEnv (Err OSError) Written Moved) = Err OSError /\
  main false (mkEnv (Err OSError) Written Moved) (mkWorld (Some (txt "1.2.3.4")) None [])
  = (0, mkWorld (Some (txt "1.2.3.4")) None [Error]).
Proof.
  split; [reflexivity|]. split; [reflexivity|].
  exact (X_main_database_failure false (mkEnv (Err OSError) Written Moved)
           (mkWorld (Some (txt "1.2.3.4")) None []) _ OSError eq_refl eq_refl).
Defined.

(** For a readable input file, [main] always exits with status 0 and logs
    exactly one entry. The entry is [Info] exactly when the database opens,
    the temporary file is written and the move succeeds; then the input
    file holds the whole anonymized text and no temporary file is left.
    Otherwise the entry is [Error], and the input file holds its old
    contents or a prefix (possibly all) of the anonymized text: a failing
    move can overwrite the input file partly. *)
Theorem X_main_outcome cc env w0 content :
  w_input w0 = Some content ->
  exists w, main cc env w0 = (0, w) /\
    ((exists out, anonymize_ip_addresses content (e_db env) cc = Ok out /\
        e_write env = Written /\ e_move env = Moved /\
        w = mkWorld (Some out) None (w_log w0 ++ [Info])) \/
     ((forall out, anonymize_ip_addresses content (e_db env) cc = Ok out ->
         e_write env <> Written \/ e_move env <> Moved) /\
      w_log w = w_log w0 ++ [Error] /\
      (w_input w = Some content \/
       exists out n, anonymize_ip_addresses content (e_db env) cc = Ok out /\
                     w_input w = Some (firstn n out)))).
Proof.
  intros H. unfold main, read_input. rewrite H. unfold io_bind, io_lift.
  destruct (anonymize_ip_addresses content (e_db env) cc) as [out|e] eqn:A.
  - unfold write_temp, move_temp.
    destruct (e_write env) as [| |k] eqn:W; [destruct (e_move env) as [| |k|] eqn:Mv|..].
    + eexists. split; [reflexivity|]. left. exists out. auto.
    + eexists. split; [reflexivity|]. right.
      split; [intros ? _; right; discriminate|]. split; [reflexivity|]. left. exact H.
    + eexists. split; [reflexivity|]. right.
      split; [intros ? _; right; discriminate|]. split; [reflexivity|].
      right. exists out, k. auto.
    + eexists. split; [reflexivity|]. right.
      split; [intros ? _; right; discriminate|]. split; [reflexivity|].
      right. exists out, (List.length out). rewrite firstn_all. auto.
    + eexists. split; [reflexivity|]. right.
      split; [intros ? _; left; discriminate|]. split; [reflexivity|]. left. exact H.
    + eexists. split; [reflexivity|]. right.
      split; [intros ? _; left; discriminate|]. split; [reflexivity|]. left. exact H.
  - eexists. split; [reflexivity|]. right.
    split; [intros out E; discriminate E|]. split; [reflexivity|]. left. simpl. exact H.
Qed.

Lemma X_main_outcome_witness :
  w_input (mkWorld (Some (txt "x 10.1.2.3")) None []) = Some (txt "x 10.1.2.3") /\
  main false (mkEnv (Ok no_reader) Written Moved) (mkWorld (Some (txt "x 10.1.2.3")) None [])
  = (0, mkWorld (Some (txt "x 10.1.XXX.XXX")) None [Info]).
Proof.
  split; [reflexivity|].
  destruct (X_main_outcome false (mkEnv (Ok no_reader) Written Moved)
              (mkWorld (Some (txt "x 10.1.2.3")) None []) _ eq_refl)
    as [w [-> [[out [A [_ [_ ->]]]]|[Hno _]]]].
  - vm_compute in A. injection A as <-. reflexivity.
  - exfalso. destruct (Hno (txt "x 10.1.XXX.XXX")) as [E|E];
      [vm_compute; reflexivity|apply E; reflexivity|apply E; reflexivity].
Defined.

(** *** Masked addresses *)

(** A masked standalone address is never re-masked: for a non-excluded IPv4
    text [a.b.c.d] or full IPv6 text [g1:...:g8], the Mask output
    ([a.b.XXX.XXX] or [g1:g2]) contains no candidate, and a second Mask pass
    leaves it unchanged. *)
Theorem X_masked_address_not_rematched reader ip out :
  ((exists a b c d, ipv4_shape a b c d /\ ip = ipv4_text a b c d) \/
   (exists gs, ipv6_shape gs /\ ip = ipv6_text gs)) ->
  ~ In ip excluded_ips ->
  anonymize_ip_addresses ip (Ok reader) false = Ok out ->
  segments out = map Plain out /\ anonymize_ip_addresses out (Ok reader) false = Ok out.
Proof.
  intros Hip Hn H1.
  assert (Hno : no_hit out).
  { destruct Hip as [[a [b [c [d [Hs ->]]]]]|[gs [Hs ->]]].
    - rewrite (anonymize_ipv4_candidate reader a b c d Hs Hn) in H1.
      injection H1 as <-. destruct Hs as [Ha [Hb _]].
      apply no_hit_masked_ipv4; assumption.
    - rewrite (anonymize_ipv6_candidate reader gs Hs Hn) in H1.
      injection H1 as <-.
      destruct (ipv6_shape_groups gs Hs) as [g1 [g2 [g3 [g4 [g5 [g6 [g7 [g8 [-> Hall]]]]]]]]].
      inversion Hall as [|? ? Hg1 Hall2]; subst. inversion Hall2 as [|? ? Hg2 _]; subst.
      apply no_hit_masked_ipv6; assumption. }
  split; [apply segments_no_hit, Hno|apply anonymize_no_hit, Hno].
Qed.

Lemma X_masked_address_not_rematched_witness :
  ((exists a b c d, ipv4_shape a b c d /\ txt "198.51.100.23" = ipv4_text a b c d) \/
   (exists gs, ipv6_shape gs /\ txt "198.51.100.23" = ipv6_text gs)) /\
  ~ In (txt "198.51.100.23") excluded_ips /\
  anonymize_ip_addresses (txt "198.51.100.23") (Ok no_reader) false = Ok (txt "198.51.XXX.XXX") /\
  segments (txt "198.51.XXX.XXX") = map Plain (txt "198.51.XXX.XXX") /\
  anonymize_ip_addresses (txt "198.51.XXX.XXX") (Ok no_reader) false = Ok (txt "198.51.XXX.XXX").
Proof.
  assert (Hip : (exists a b c d, ipv4_shape a b c d /\ txt "198.51.100.23" = ipv4_text a b c d) \/
                (exists gs, ipv6_shape gs /\ txt "198.51.100.23" = ipv6_text gs)).
  { left. exists (txt "198"), (txt "51"), (txt "100"), (txt "23"). split; [|reflexivity].
    unfold ipv4_shape, dgroup. simpl. repeat split; repeat constructor; discriminate. }
  assert (Hex : ~ In (txt "198.51.100.23") excluded_ips).
  { rewrite <- is_excluded_In. vm_compute. discriminate. }
  assert (A : anonymize_ip_addresses (txt "198.51.100.23") (Ok no_reader) false
              = Ok (txt "198.51.XXX.XXX")) by (vm_compute; reflexivity).
  split; [exact Hip|]. split; [exact Hex|]. split; [exact A|].
  exact (X_masked_address_not_rematched no_reader _ _ Hip Hex A).
Defined.
